(** * Multi-agent question answering over one policy document

    A shallow embedding of the answering pipeline: the numbered-answer
    parser and batched synthesis with one partial retry
    ([app/services/combined_agent.py]), single-question synthesis
    ([app/services/two_synthesis_agent.py]), the query planner
    ([app/services/one_planning_agent.py]), two-stage retrieval
    ([app/services/three_retrieval_service.py]) and the orchestrating
    endpoint ([app/api/endpoints/run.py]).

    Conventions of the embedding.
    - A Python [str] is a [string]; a character is a code point below 256
      (Latin-1), so that [str.isdigit], [str.isspace] and [int()] are the
      interpreter's own tables on that range.
    - A Python [int] that counts (a question number) is a [nat]; an [int]
      parameter that the caller may choose freely ([max_retries],
      [top_k_retrieval], [top_n_rerank]) is a [Z].
    - A [dict] with integer or string keys is a [gmap], a [set] a [gset].
    - Exceptions are values: a call that may raise returns a [result].
    - The collaborators (completion service, embedding model, vector index,
      relevance scorer, JSON decoder, ingestion) are the methods of type
      classes; the completion service sees the whole history of earlier
      calls, so two calls with one prompt may answer differently.
    - The text stored with a vector is dynamically typed: a payload is a
      text or a number, and [str.join] raises on a number.
    - [print] statements are not modelled. *)

From Stdlib Require Import ZArith QArith String Ascii List Permutation Sorted Lia.
From stdpp Require Import gmap strings list pretty.

(** ** Python strings *)

Module PyStr.

Definition newline : ascii := "010"%char.
Definition dquote : ascii := "034"%char.
Definition period : ascii := "."%char.

(** [str.isspace] on code points below 256. *)
Definition isspace (c : ascii) : bool :=
  let n := nat_of_ascii c in
  (((9 <=? n) && (n <=? 13)) || ((28 <=? n) && (n <=? 32))
   || (n =? 133) || (n =? 160))%nat.

(** The decimal digits [0]..[9]: the characters [int()] accepts. *)
Definition isdecimal (c : ascii) : bool :=
  let n := nat_of_ascii c in ((48 <=? n) && (n <=? 57))%nat.

(** [str.isdigit] on code points below 256: the decimal digits and the
    superscripts two, three and one. *)
Definition isdigit (c : ascii) : bool :=
  let n := nat_of_ascii c in
  isdecimal c || ((n =? 178) || (n =? 179) || (n =? 185))%nat.

Definition nonempty (s : string) : bool :=
  match s with EmptyString => false | String _ _ => true end.

Fixpoint lstrip (s : string) : string :=
  match s with
  | EmptyString => EmptyString
  | String c s' => if isspace c then lstrip s' else s
  end.

Fixpoint rstrip (s : string) : string :=
  match s with
  | EmptyString => EmptyString
  | String c s' =>
      match rstrip s' with
      | EmptyString => if isspace c then EmptyString else String c EmptyString
      | r => String c r
      end
  end.

(** [s.strip()] *)
Definition strip (s : string) : string := rstrip (lstrip s).

(** [s.split('\n')]: never empty, one more piece than there are newlines. *)
Fixpoint split_lines (s : string) : list string :=
  match s with
  | EmptyString => [EmptyString]
  | String c s' =>
      if Ascii.eqb c newline then EmptyString :: split_lines s'
      else match split_lines s' with
           | [] => [String c EmptyString]
           | l :: ls => String c l :: ls
           end
  end.

(** [sep.join(parts)] *)
Definition join (sep : string) (parts : list string) : string :=
  String.concat sep parts.

(** [int(s)] for a string of digits: [None] stands for [ValueError].
    The interpreter's optional cap on the length of a decimal literal is
    not modelled. *)
Definition digit_value (c : ascii) : nat := nat_of_ascii c - 48.

Fixpoint int_acc (acc : nat) (s : string) : option nat :=
  match s with
  | EmptyString => Some acc
  | String c s' =>
      if isdecimal c then int_acc (10 * acc + digit_value c) s' else None
  end.

Definition int (s : string) : option nat :=
  match s with
  | EmptyString => None
  | String _ _ => int_acc 0 s
  end.

(** [str(n)] *)
Definition str (n : nat) : string := pretty n.

(** A text between double quotes. *)
Definition quoted (s : string) : string :=
  String dquote s +:+ String dquote EmptyString.

Fixpoint all_chars (p : ascii -> bool) (s : string) : bool :=
  match s with
  | EmptyString => true
  | String c s' => p c && all_chars p s'
  end.

End PyStr.

(** ** Exceptions *)

Inductive exn : Type :=
| RuntimeError (msg : string)
| TypeError (msg : string)
| ValueError (msg : string)
| KeyError (key : string)
| ServiceError (msg : string)
| HTTPException (status_code : nat) (detail : string).

(** [str(e)], as the f-strings print it. *)
Definition exn_message (e : exn) : string :=
  match e with
  | RuntimeError msg | TypeError msg | ValueError msg | ServiceError msg => msg
  | KeyError key => key
  | HTTPException _ detail => detail
  end.

Inductive result (A : Type) : Type :=
| Ok (a : A)
| Raise (e : exn).
Arguments Ok {A} a.
Arguments Raise {A} e.

Definition is_ok {A} (r : result A) : bool :=
  match r with Ok _ => true | Raise _ => false end.

(** ** Dynamically typed values *)

(** The text stored with a vector.  [ingest_and_process_pdf] stores chunks
    of text; an index that existed before the service attached to it may
    hold another scalar under the same key, of which the model keeps the
    numbers. *)
Inductive payload : Type :=
| Text (s : string)
| Number (z : Z).

#[global] Instance payload_eq_dec : EqDecision payload.
Proof. solve_decision. Defined.

#[global] Instance payload_countable : Countable payload.
Proof.
  refine (inj_countable'
            (fun p => match p with Text s => inl s | Number z => inr z end)
            (fun x => match x with inl s => Text s | inr z => Number z end) _).
  intros []; reflexivity.
Defined.

(** What [json.loads] returns. *)
#[local] Set Warnings "-register-all".
Inductive json : Type :=
| JNull
| JBool (b : bool)
| JNumber (z : Z)
| JString (s : string)
| JArray (items : list json)
| JObject (members : list (string * json)).

(** ** The completion service and the state of the process *)

(** The three [GenerativeModel] objects of the process. *)
Inductive model : Type := PlanningModel | SynthesisModel | CombinedModel.

Record call : Type := Call { call_model : model; call_prompt : string }.

(** [generate history m prompt] is the outcome of
    [m.generate_content(prompt).text] (or of its [_async] form) when
    [history] lists the calls made before it. *)
Class CompletionService : Type :=
  { generate : list call -> model -> string -> result string }.

(** The mutable state: the service manager's fields and the calls made so
    far. *)
Record world : Type := World {
  index : option string;
  question_cache : gmap string string;
  policy_preloaded : bool;
  calls : list call
}.

Definition set_index (i : option string) (w : world) : world :=
  World i (question_cache w) (policy_preloaded w) (calls w).
Definition set_question_cache (c : gmap string string) (w : world) : world :=
  World (index w) c (policy_preloaded w) (calls w).
Definition set_policy_preloaded (b : bool) (w : world) : world :=
  World (index w) (question_cache w) b (calls w).
Definition log_call (c : call) (w : world) : world :=
  World (index w) (question_cache w) (policy_preloaded w) (calls w ++ [c]).

(** A computation that reads and writes the state and may raise; the state
    written before an exception stays written. *)
Definition M (A : Type) : Type := world -> result A * world.

#[global] Instance M_ret : MRet M := fun A a w => (Ok a, w).
#[global] Instance M_bind : MBind M := fun A B f m w =>
  match m w with
  | (Ok a, w') => f a w'
  | (Raise e, w') => (Raise e, w')
  end.

Definition raise {A} (e : exn) : M A := fun w => (Raise e, w).

Definition lift {A} (r : result A) : M A := fun w => (r, w).

(** [try: body except Exception as e: handler e] *)
Definition try_except {A} (body : M A) (handler : exn -> M A) : M A :=
  fun w => match body w with
           | (Ok a, w') => (Ok a, w')
           | (Raise e, w') => handler e w'
           end.

Definition get_world : M world := fun w => (Ok w, w).
Definition modify_world (f : world -> world) : M unit := fun w => (Ok tt, f w).

(** [await m.generate_content_async(prompt)] followed by [.text]. *)
Definition generate_content `{CompletionService} (m : model) (prompt : string)
  : M string :=
  fun w => (generate (calls w) m prompt, log_call (Call m prompt) w).

(** ** Joining the context *)

(** [context_str = sep.join(context_chunks)]: [str.join] raises a
    [TypeError] on the first item that is not a [str]. *)
Definition CONTEXT_SEPARATOR : string := "

---

".

Fixpoint texts_of (chunks : list payload) : result (list string) :=
  match chunks with
  | [] => Ok []
  | Text s :: rest =>
      match texts_of rest with
      | Ok ss => Ok (s :: ss)
      | Raise e => Raise e
      end
  | Number _ :: _ => Raise (TypeError "sequence item: expected str instance")
  end.

Definition join_context (context_chunks : list payload) : result string :=
  match texts_of context_chunks with
  | Ok ss => Ok (PyStr.join CONTEXT_SEPARATOR ss)
  | Raise e => Raise e
  end.

(** ** [combined_agent.py] *)

Module CombinedAgent.
Import PyStr.

(** The [while] loop over the leading digits: the digits read and the
    rest of the line, [line[j:]]. *)
Fixpoint scan_digits (line : string) : string * string :=
  match line with
  | EmptyString => (EmptyString, EmptyString)
  | String c s' =>
      if isdigit c
      then let '(num_str, rest) := scan_digits s' in (String c num_str, rest)
      else (EmptyString, line)
  end.

(** One iteration of the [for raw in lines] loop. *)
Definition parse_line (answers : gmap nat string) (raw : string)
  : gmap nat string :=
  let line := strip raw in
  match line with
  | EmptyString => answers
  | String c _ =>
      if isdigit c then
        let '(num_str, rest) := scan_digits line in
        match rest with
        | String d tail =>
            if Ascii.eqb d period then
              match int num_str with
              | Some idx =>
                  let ans := strip tail in
                  if nonempty ans then <[idx := ans]> answers else answers
              | None => answers
              end
            else answers
        | EmptyString => answers
        end
      else answers
  end.

Definition _parse_numbered_answers_map (response_text : string)
  : gmap nat string :=
  fold_left parse_line (split_lines response_text) ∅.

(** The shape the specification asks of a line: trimmed, it is decimal
    digits of value [k], a period right after them, and a remainder that
    trims to [a]. *)
Definition numbered_line (k : nat) (a raw : string) : Prop :=
  exists ds rest,
    strip raw = ds +:+ String period rest /\ int ds = Some k /\ strip rest = a.

(** The entry one line writes into the map, if any. *)
Definition line_entry (raw : string) : option (nat * string) :=
  match scan_digits (strip raw) with
  | (num_str, String d tail) =>
      if Ascii.eqb d period then
        match int num_str with
        | Some idx =>
            if nonempty (strip tail) then Some (idx, strip tail) else None
        | None => None
        end
      else None
  | (_, EmptyString) => None
  end.

(** A line that writes nothing for number [k]. *)
Definition silent (k : nat) (raw : string) : Prop :=
  forall a, line_entry raw <> Some (k, a).

(** The sentinel of the batch path. *)
Definition NOT_FOUND : string := "Information not found in the policy document".

(** [f"{i+1}. {questions[i]}"] *)
Definition numbered_question (questions : list string) (i : nat) : string :=
  str (i + 1) +:+ ". " +:+ nth i questions EmptyString.

(** [[f"{i+1}. {question}" for i, question in enumerate(questions)]] *)
Definition numbered_questions (questions : list string) : list string :=
  imap (fun i question => str (i + 1) +:+ ". " +:+ question) questions.

Definition prompt_all (context_str questions_text : string) : string :=
"
You are a precise and factual insurance policy assistant. Your task is to answer multiple questions about the National Parivar Mediclaim Plus Policy based ONLY on the provided 'Source Text'.

CRITICAL RULES:
- Answer each question CONCISELY (1-2 sentences maximum)
- Use ONLY information from the Source Text
- Be direct and factual
- If information is not found, respond exactly: " +:+ quoted NOT_FOUND +:+ "
- Number your answers to match the question numbers

Source Text:
" +:+ context_str +:+ "

Questions to Answer:
" +:+ questions_text +:+ "

Instructions:
Provide your answers in this exact format:
1. [Answer to question 1]
2. [Answer to question 2]
3. [Answer to question 3]
... and so on for all questions.

Final Answers:
".

Definition prompt_missing (context_str missing_questions_text : string)
  (missing_indices : list nat) : string :=
"
You are a precise and factual insurance policy assistant. Answer ONLY the listed question numbers based ONLY on the provided 'Source Text'.

CRITICAL RULES:
- Answer CONCISELY (1-2 sentences maximum)
- Use ONLY information from the Source Text
- Be direct and factual
- If information is not found, respond exactly: " +:+ quoted NOT_FOUND +:+ "
- Number your answers to match the ORIGINAL question numbers provided below

Source Text:
" +:+ context_str +:+ "

Questions to Answer (use these original numbers in your answers):
" +:+ missing_questions_text +:+ "

Instructions:
Provide your answers in this exact format using the original numbers:
" +:+ join EmptyString
        (map (fun i => str (i + 1) +:+ ". [Answer]" +:+ String newline EmptyString)
             missing_indices) +:+ "

Final Answers:
".

(** [enumerate(l)] *)
Definition enumerate {A} (l : list A) : list (nat * A) :=
  zip (seq 0 (length l)) l.

(** [not ans] for an entry of [results]: [None] and the empty string. *)
Definition falsy (ans : option string) : bool :=
  match ans with
  | None => true
  | Some s => negb (nonempty s)
  end.

(** [[ans if ans else NOT_FOUND for ans in results]] *)
Definition finalize (results : list (option string)) : list string :=
  map (fun ans => match ans with
                  | Some s => if nonempty s then s else NOT_FOUND
                  | None => NOT_FOUND
                  end) results.

(** The [for idx in missing_indices] loop of the second attempt. *)
Definition fill_missing (retry_map : gmap nat string)
  (missing_indices : list nat) (results : list (option string))
  : list (option string) :=
  fold_left (fun results idx =>
               let ans := retry_map !! (idx + 1) in
               if falsy ans then results else <[idx := ans]> results)
            missing_indices results.

Definition process_all_questions_with_retry `{CompletionService}
  (questions : list string) (context_chunks : list payload) (max_retries : Z)
  : M (list string) :=
  context_str ← lift (join_context context_chunks);
  let questions_text :=
    join (String newline EmptyString) (numbered_questions questions) in
  answers_map ← try_except
    (response_text ← generate_content CombinedModel
                       (prompt_all context_str questions_text);
     mret (_parse_numbered_answers_map (strip response_text)))
    (fun _ => mret ∅);
  let results :=
    map (fun i => answers_map !! (i + 1)) (seq 0 (length questions)) in
  let missing_indices :=
    map fst (filter (fun p => falsy (snd p) = true) (enumerate results)) in
  if bool_decide (missing_indices = []) || (max_retries <=? 1)%Z
  then mret (finalize results)
  else
    let missing_questions_text :=
      join (String newline EmptyString)
           (map (numbered_question questions) missing_indices) in
    results ← try_except
      (response2_text ← generate_content CombinedModel
                          (prompt_missing context_str missing_questions_text
                                          missing_indices);
       let retry_map := _parse_numbered_answers_map (strip response2_text) in
       mret (fill_missing retry_map missing_indices results))
      (fun _ => mret results);
    mret (finalize results).



(** Vocabulary for the statements about the batch. *)

(** The first prompt and the retry prompt for given missing positions. *)
Definition first_prompt (context_str : string) (questions : list string)
  : string :=
  prompt_all context_str
    (join (String newline EmptyString) (numbered_questions questions)).

Definition retry_prompt (context_str : string) (questions : list string)
  (missing : list nat) : string :=
  prompt_missing context_str
    (join (String newline EmptyString)
          (map (numbered_question questions) missing))
    missing.

(** The map read from the outcome of a completion call: empty when the
    call raised. *)
Definition parsed (outcome : result string) : gmap nat string :=
  match outcome with
  | Ok response_text => _parse_numbered_answers_map (strip response_text)
  | Raise _ => ∅
  end.

(** The positions (from 0) of the [n] questions whose number is not in
    the map. *)
Definition missing_of (answers_map : gmap nat string) (n : nat) : list nat :=
  filter (fun i => answers_map !! (i + 1) = None) (seq 0 n).

(** The final answer at position [i], given the map of the first call and
    the map of the retry. *)
Definition slot (first_map retry_map : gmap nat string) (i : nat) : string :=
  match first_map !! (i + 1) with
  | Some a => a
  | None =>
      match retry_map !! (i + 1) with
      | Some a => a
      | None => NOT_FOUND
      end
  end.

(** No answer of the map is empty. *)
Definition nonempty_values (m : gmap nat string) : Prop :=
  forall k a, m !! k = Some a -> nonempty a = true.

(** What the second attempt leaves at each position. *)
Definition refill (retry_map : gmap nat string) (missing : list nat)
  (i : nat) (old : option string) : option string :=
  if decide (i ∈ missing /\ falsy (retry_map !! (i + 1)) = false)
  then retry_map !! (i + 1) else old.

End CombinedAgent.

(** ** [two_synthesis_agent.py] *)

Module SynthesisAgent.
Import PyStr.

Definition GENERATION_ERROR : string :=
  "[An error occurred while generating the final answer.]".

Definition prompt_final (context_str original_question : string) : string :=
"
You are a precise and factual writing assistant. Your primary goal is to answer the user's question as CONCISELY as possible based ONLY on the provided 'Source Text'.

Follow this internal Chain of Thought, but DO NOT output the thought process. Your final output should only be the answer text.

1.  **Synthesize**: First, find the most direct and relevant information in the 'Source Text' to answer the 'User's Original Question'.
2.  **Critique for Brevity**: Second, critically review your answer. Ask yourself: " +:+ quoted "Is this the shortest possible answer that is still accurate and complete? Have I included unnecessary details, examples, or lists? Can I say this in fewer words?" +:+ "
3.  **Refine for Conciseness**: Finally, rewrite the answer to be as brief and to-the-point as possible. Summarize the key information into a single, clear sentence or two.

**CRITICAL RULES:**
-   **BE BRIEF**: Do not provide long, multi-paragraph explanations.
-   **SUMMARIZE**: Do not list out all details. Summarize the key finding.
-   **DIRECT ANSWERS**: Get straight to the point.

---
Source Text:
" +:+ context_str +:+ "
---
User's Original Question:
" +:+ quoted original_question +:+ "
---
Final, Concise Answer:
".

Definition synthesize_final_answer `{CompletionService}
  (original_question : string) (context_chunks : list payload) : M string :=
  context_str ← lift (join_context context_chunks);
  try_except
    (generate_content SynthesisModel (prompt_final context_str original_question))
    (fun _ => mret GENERATION_ERROR).

End SynthesisAgent.

(** ** [one_planning_agent.py] *)

Module PlanningAgent.
Import PyStr.

(** The [json] module: [json.dumps] of a [str], and [json.loads], which
    raises on a text that is not JSON. *)
Class JsonCodec : Type := {
  json_dumps : string -> string;
  json_loads : string -> result json
}.

Definition prompt_plan (safe_question : string) : string :=
"
You are a master of logical reasoning and query planning. Your task is to analyze the user's question and create a research plan.

Follow these steps in your reasoning process:
1.  **Decomposition**: First, break down the user's question into a series of simpler, self-contained sub-questions. If the question is already simple, treat it as a single sub-question.
2.  **Hypothetical Generation**: For each sub-question you identified, generate three different and detailed hypothetical answers. These answers should be plausible and information-rich to be used for a vector search.

Your final output MUST be a single, valid JSON object. The keys of the object should be the sub-questions you generated, and the value for each key should be an array of the three hypothetical answers for that sub-question.

User Question: " +:+ safe_question +:+ "
".

(** A research plan is the decoded object: its members in order. *)
Definition research_plan : Type := list (string * json).

(** [{question: [question]}] *)
Definition identity_plan (question : string) : research_plan :=
  [(question, JArray [JString question])].

Definition plan_and_research `{CompletionService} `{JsonCodec}
  (question : string) : M research_plan :=
  let safe_question := json_dumps question in
  try_except
    (response_text ← generate_content PlanningModel (prompt_plan safe_question);
     response_data ← lift (json_loads response_text);
     match response_data with
     | JObject (member :: members) => mret (member :: members)
     | _ => mret (identity_plan question)
     end)
    (fun _ => mret (identity_plan question)).

End PlanningAgent.

(** ** [three_retrieval_service.py] *)

Module RetrievalService.

Definition INDEX_NAME : string := "hackathon-rag-index".

(** One entry of [query_response['matches']]. *)
Record pinecone_match : Type := Match {
  match_id : string;
  match_metadata : gmap string payload
}.

(** The embedding model, the attached index and the cross-encoder.  A
    relevance score is a float; the model takes it as the rational it
    denotes, so scores are totally ordered (no NaN). *)
Class RetrievalBackend : Type := {
  vector : Type;
  encode : json -> result vector;
  index_query : vector -> Z -> result (list pinecone_match);
  predict : list (json * payload) -> result (list Q)
}.

(** Where [ingest_and_process_pdf] stops: before [self.index] is assigned
    (reading the file, embedding, creating the index), after it (the
    upsert), or not at all. *)
Inductive ingestion_outcome : Type :=
| FailsBeforeAttach (e : exn)
| FailsAfterAttach (e : exn)
| Ingested.

Class IngestionBackend : Type :=
  { ingestion : string -> ingestion_outcome }.

Definition ingest_and_process_pdf `{IngestionBackend} (pdf_path : string)
  : M unit :=
  match ingestion pdf_path with
  | FailsBeforeAttach e => raise e
  | FailsAfterAttach e =>
      _ ← modify_world (set_index (Some INDEX_NAME)); raise e
  | Ingested => modify_world (set_index (Some INDEX_NAME))
  end.

(** [[match['metadata']['text'] for match in matches]] *)
Fixpoint retrieved_texts (matches : list pinecone_match)
  : result (list payload) :=
  match matches with
  | [] => Ok []
  | m :: rest =>
      match match_metadata m !! "text" with
      | None => Raise (KeyError "text")
      | Some chunk =>
          match retrieved_texts rest with
          | Ok chunks => Ok (chunk :: chunks)
          | Raise e => Raise e
          end
      end
  end.

(** [list.sort(key=lambda x: x[0], reverse=True)]: a stable sort, largest
    key first; entries with equal keys keep their order. *)
Fixpoint insert_desc (x : Q * payload) (sorted : list (Q * payload))
  : list (Q * payload) :=
  match sorted with
  | [] => [x]
  | y :: rest =>
      if Qle_bool (fst y) (fst x) then x :: y :: rest
      else y :: insert_desc x rest
  end.

Definition sort_desc (l : list (Q * payload)) : list (Q * payload) :=
  fold_right insert_desc [] l.

(** [a] does not score below [b]. *)
Definition score_ge (a b : Q * payload) : Prop := (fst b <= fst a)%Q.

(** The entries whose score equals [s]. *)
Definition same_score (s : Q) (p : Q * payload) : bool := Qeq_bool (fst p) s.

(** [l[:n]] *)
Definition slice_to {A} (n : Z) (l : list A) : list A :=
  if (0 <=? n)%Z then take (Z.to_nat n) l
  else take (length l - Z.to_nat (- n)) l.

(** The second stage: lines 130 to 140. *)
Definition rerank `{RetrievalBackend} (query : json)
  (matches : list pinecone_match) (top_n_rerank : Z) : result (list payload) :=
  match retrieved_texts matches with
  | Raise e => Raise e
  | Ok retrieved_chunks =>
      let rerank_pairs := map (fun chunk => (query, chunk)) retrieved_chunks in
      match predict rerank_pairs with
      | Raise e => Raise e
      | Ok scores =>
          let scored_chunks := sort_desc (zip scores retrieved_chunks) in
          Ok (map snd (slice_to top_n_rerank scored_chunks))
      end
  end.

Definition NOT_INGESTED : string :=
  "Document has not been ingested. Call ingest_and_process_pdf() first or preload the index.".

Definition search_and_rerank `{RetrievalBackend} (query : json)
  (top_k_retrieval : Z) (top_n_rerank : Z) : M (list payload) :=
  w ← get_world;
  match index w with
  | None => raise (RuntimeError NOT_INGESTED)
  | Some _ =>
      query_embedding ← lift (encode query);
      matches ← lift (index_query query_embedding top_k_retrieval);
      match matches with
      | [] => mret []
      | _ :: _ => lift (rerank query matches top_n_rerank)
      end
  end.

Definition DEFAULT_TOP_K : Z := 20.
Definition DEFAULT_TOP_N : Z := 5.

End RetrievalService.

(** ** [api/endpoints/run.py] *)

Module Run.
Import PyStr PlanningAgent RetrievalService.

Class Services : Type := {
  completion_service :: CompletionService;
  json_codec :: JsonCodec;
  retrieval_backend :: RetrievalBackend;
  ingestion_backend :: IngestionBackend
}.

Definition policy_path : string := "./data/policy.pdf".

Definition NO_CHUNKS_MESSAGE : string :=
  "I couldn't find specific information about this in the policy document. Please try rephrasing your question or contact customer support for detailed policy information.".

Definition error_message (question : string) : string :=
  "An error occurred while processing the question: " +:+ question.

(** The [for question in questions] loop of [get_comprehensive_context];
    each search is awaited before the next one starts. *)
Fixpoint gather_context `{Services} (questions : list string)
  (all_context_chunks : gset payload) : M (gset payload) :=
  match questions with
  | [] => mret all_context_chunks
  | question :: rest =>
      all_context_chunks ← try_except
        (context ← search_and_rerank (JString question) 30 DEFAULT_TOP_N;
         mret (all_context_chunks ∪ list_to_set context))
        (fun _ => mret all_context_chunks);
      gather_context rest all_context_chunks
  end.

Definition get_comprehensive_context `{Services} (questions : list string)
  : M (list payload) :=
  all_context_chunks ← gather_context questions ∅;
  mret (elements all_context_chunks).

(** [for ha in hypothetical_answers]: what iterating a decoded value
    yields. *)
Definition iterate (v : json) : result (list json) :=
  match v with
  | JArray items => Ok items
  | JString s => Ok (map (fun c => JString (String c EmptyString))
                         (list_ascii_of_string s))
  | JObject members => Ok (map (fun member => JString (fst member)) members)
  | JNull | JBool _ | JNumber _ => Raise (TypeError "object is not iterable")
  end.

Fixpoint search_each `{Services} (hypothetical_answers : list json)
  (top_k : Z) (local_chunks : gset payload) : M (gset payload) :=
  match hypothetical_answers with
  | [] => mret local_chunks
  | ha :: rest =>
      context ← search_and_rerank ha top_k DEFAULT_TOP_N;
      search_each rest top_k (local_chunks ∪ list_to_set context)
  end.

Definition get_context_for_sub_q `{Services} (attempt : nat)
  (research_plan : research_plan) (sub_q : string)
  (hypothetical_answers : json) : M (gset payload) :=
  let top_k := if (0 <? attempt)%nat then 60%Z
               else if (1 <? length research_plan)%nat then 40%Z else 20%Z in
  items ← lift (iterate hypothetical_answers);
  search_each items top_k ∅.

(** [await asyncio.gather( *tasks )]: the results in the order of the tasks.
    The tasks only read the state, so the order in which they run does not
    show in their results; when several raise, this model hands on the one
    of the first task in the list. *)
Fixpoint gather {A} (tasks : list (M A)) : M (list A) :=
  match tasks with
  | [] => mret []
  | task :: rest =>
      a ← task;
      results ← gather rest;
      mret (a :: results)
  end.

(** The [for attempt in range(max_retries)] loop: [attempts] lists the
    attempts still to make. *)
Fixpoint retrieval_attempts `{Services} (attempts : list nat)
  (research_plan : research_plan) (all_context_chunks : gset payload)
  : M (gset payload) :=
  match attempts with
  | [] => mret all_context_chunks
  | attempt :: rest =>
      results ← gather
        (map (fun item =>
                get_context_for_sub_q attempt research_plan (fst item) (snd item))
             research_plan);
      let attempt_chunks := ⋃ results in
      let all_context_chunks := all_context_chunks ∪ attempt_chunks in
      if bool_decide (attempt_chunks = ∅)
      then retrieval_attempts rest research_plan all_context_chunks
      else mret all_context_chunks
  end.

Definition run_single_question_pipeline `{Services} (question : string)
  : M string :=
  w ← get_world;
  match question_cache w !! question with
  | Some cached => mret cached
  | None =>
      research_plan ← plan_and_research question;
      let max_retries := 2%nat in
      all_context_chunks ←
        retrieval_attempts (seq 0 max_retries) research_plan ∅;
      if bool_decide (all_context_chunks = ∅)
      then mret NO_CHUNKS_MESSAGE
      else
        final_answer ← SynthesisAgent.synthesize_final_answer
                         question (elements all_context_chunks);
        _ ← modify_world (fun w =>
              set_question_cache (<[question := final_answer]> (question_cache w)) w);
        mret final_answer
  end.

(** The loop of the [except] branch: [answers.append] once per question. *)
Fixpoint fallback_loop `{Services} (questions : list string)
  (answers : list string) : M (list string) :=
  match questions with
  | [] => mret answers
  | question :: rest =>
      answer ← try_except
        (run_single_question_pipeline question)
        (fun _ => mret (error_message question));
      fallback_loop rest (answers ++ [answer])
  end.

(** Lines 81 to 112: the cache is cleared, then the batch path, and on any
    exception of it the loop over the questions. *)
Definition answer_questions `{Services} (questions : list string)
  : M (list string) :=
  _ ← modify_world (set_question_cache ∅);
  try_except
    (all_context_chunks ← get_comprehensive_context questions;
     CombinedAgent.process_all_questions_with_retry
       questions all_context_chunks 2)
    (fun _ => fallback_loop questions []).

(** The endpoint: the value is the [answers] array of the response.  The
    services exist already ([initialize_services] has run); [index] holds
    what the retrieval service found when it was created. *)
Definition run_submission `{Services} (questions : list string)
  : M (list string) :=
  w ← get_world;
  _ ← match index w with
      | None =>
          try_except
            (_ ← ingest_and_process_pdf policy_path;
             modify_world (set_policy_preloaded true))
            (fun e => raise (HTTPException 500
               ("Failed to (re)create Pinecone index from local policy file: "
                +:+ exn_message e)))
      | Some _ => modify_world (set_policy_preloaded true)
      end;
  answer_questions questions.

(** Vocabulary for the statements about the endpoint. *)

(** What the search for one question adds to the pool: its chunks, or
    nothing when it raises. *)
Definition found `{Services} (w : world) (question : string) : gset payload :=
  match fst (search_and_rerank (JString question) 30 DEFAULT_TOP_N w) with
  | Ok context => list_to_set context
  | Raise _ => ∅
  end.

(** One turn of the fallback loop: the answer it appends and the state it
    leaves. *)
Definition fallback_slot `{Services} (question : string) (w : world)
  : string * world :=
  match run_single_question_pipeline question w with
  | (Ok answer, w') => (answer, w')
  | (Raise _, w') => (error_message question, w')
  end.

(** The state after the fallback loop went through [questions]. *)
Fixpoint world_after `{Services} (questions : list string) (w : world)
  : world :=
  match questions with
  | [] => w
  | question :: rest => world_after rest (snd (fallback_slot question w))
  end.

(** The state once an index is attached and the flag is set. *)
Definition with_index (w : world) : world :=
  set_policy_preloaded true
    (match index w with
     | None => set_index (Some INDEX_NAME) w
     | Some _ => w
     end).

(** The answers the fallback loop appends, from state [w] on. *)
Fixpoint fallback_answers `{Services} (questions : list string) (w : world)
  : list string :=
  match questions with
  | [] => []
  | question :: rest =>
      fst (fallback_slot question w)
      :: fallback_answers rest (snd (fallback_slot question w))
  end.

End Run.

(** ** The order in which searches are issued *)

(** The retrieval stages once more, as coroutines: what matters here is
    when a search is handed to a worker thread and when its result is
    awaited, which the functions above do not show. *)

Module Coroutines.
Import RetrievalService Run.

(** A coroutine returns, raises, or is suspended at
    [await asyncio.to_thread(search_and_rerank, query, top_k_retrieval=top_k)]
    until the result of the search resumes it. *)
Inductive coroutine (A : Type) : Type :=
| Return (a : A)
| Throw (e : exn)
| AwaitSearch (query : json) (top_k : Z)
    (resume : result (list payload) -> coroutine A).
Arguments Return {A} a.
Arguments Throw {A} e.
Arguments AwaitSearch {A} query top_k resume.

Inductive event : Type :=
| Issued (query : json) (top_k : Z)
| Joined (query : json) (top_k : Z).

(** A coroutine awaited on its own: every search it issues is joined
    before it goes on. *)
Fixpoint run_alone {A} (search : json -> Z -> result (list payload))
  (c : coroutine A) : list event * result A :=
  match c with
  | Return a => ([], Ok a)
  | Throw e => ([], Raise e)
  | AwaitSearch query top_k resume =>
      let '(trace, r) := run_alone search (resume (search query top_k)) in
      (Issued query top_k :: Joined query top_k :: trace, r)
  end.

(** The loop of [get_comprehensive_context]. *)
Fixpoint gather_context_co (questions : list string)
  (all_context_chunks : gset payload) : coroutine (gset payload) :=
  match questions with
  | [] => Return all_context_chunks
  | question :: rest =>
      AwaitSearch (JString question) 30
        (fun r => match r with
                  | Ok context =>
                      gather_context_co rest
                        (all_context_chunks ∪ list_to_set context)
                  | Raise _ => gather_context_co rest all_context_chunks
                  end)
  end.

(** The body of [get_context_for_sub_q]. *)
Fixpoint search_each_co (hypothetical_answers : list json) (top_k : Z)
  (local_chunks : gset payload) : coroutine (gset payload) :=
  match hypothetical_answers with
  | [] => Return local_chunks
  | ha :: rest =>
      AwaitSearch ha top_k
        (fun r => match r with
                  | Ok context =>
                      search_each_co rest top_k
                        (local_chunks ∪ list_to_set context)
                  | Raise e => Throw e
                  end)
  end.

Definition get_context_for_sub_q_co (attempt : nat)
  (research_plan : PlanningAgent.research_plan) (sub_q : string)
  (hypothetical_answers : json) : coroutine (gset payload) :=
  let top_k := if (0 <? attempt)%nat then 60%Z
               else if (1 <? length research_plan)%nat then 40%Z else 20%Z in
  match iterate hypothetical_answers with
  | Ok items => search_each_co items top_k ∅
  | Raise e => Throw e
  end.

(** [tasks = [get_context_for_sub_q(sub_q, hypos) for ...]] *)
Definition sub_question_tasks (attempt : nat)
  (research_plan : PlanningAgent.research_plan)
  : list (coroutine (gset payload)) :=
  map (fun item =>
         get_context_for_sub_q_co attempt research_plan (fst item) (snd item))
      research_plan.

(** [asyncio.gather]: every task is started and runs up to its first
    [await]; from then on, whenever the search of a task is done, that task
    is resumed and runs up to its next [await].  Which search is done next
    is not the program's choice: [schedule] lists the tasks in the order in
    which their pending searches finish. *)
Definition first_issue {A} (c : coroutine A) : list event :=
  match c with
  | AwaitSearch query top_k _ => [Issued query top_k]
  | Return _ | Throw _ => []
  end.

Definition resume_task {A} (search : json -> Z -> result (list payload))
  (c : coroutine A) : list event * coroutine A :=
  match c with
  | AwaitSearch query top_k resume =>
      let c' := resume (search query top_k) in
      (Joined query top_k :: first_issue c', c')
  | Return _ | Throw _ => ([], c)
  end.

Fixpoint event_loop {A} (search : json -> Z -> result (list payload))
  (schedule : list nat) (tasks : list (coroutine A))
  : list event * list (coroutine A) :=
  match schedule with
  | [] => ([], tasks)
  | j :: rest =>
      match tasks !! j with
      | Some c =>
          let '(events, c') := resume_task search c in
          let '(trace, final) := event_loop search rest (<[j := c']> tasks) in
          (events ++ trace, final)
      | None => event_loop search rest tasks
      end
  end.

Definition gather_trace {A} (search : json -> Z -> result (list payload))
  (schedule : list nat) (tasks : list (coroutine A)) : list event :=
  flat_map first_issue tasks ++ fst (event_loop search schedule tasks).

Definition gather_final {A} (search : json -> Z -> result (list payload))
  (schedule : list nat) (tasks : list (coroutine A)) : list (coroutine A) :=
  snd (event_loop search schedule tasks).

Definition waiting {A} (c : coroutine A) : bool :=
  match c with
  | AwaitSearch _ _ _ => true
  | Return _ | Throw _ => false
  end.

(** A finished task, from its result. *)
Definition finished {A} (r : result A) : coroutine A :=
  match r with
  | Ok a => Return a
  | Raise e => Throw e
  end.

(** The largest number of searches issued and not yet joined at any point
    of a trace, [current] of them being so at its start. *)
Fixpoint peak (current : nat) (trace : list event) : nat :=
  match trace with
  | [] => current
  | Issued _ _ :: rest => Nat.max current (peak (S current) rest)
  | Joined _ _ :: rest => Nat.max current (peak (Nat.pred current) rest)
  end.

(** The search as the retrieval service runs it in state [w]. *)
Definition search_in `{RetrievalBackend} (w : world) (query : json) (top_k : Z)
  : result (list payload) :=
  fst (search_and_rerank query top_k DEFAULT_TOP_N w).


(** The result of a task run on its own in state [w]. *)
Definition outcome `{RetrievalBackend} {A} (w : world) (c : coroutine A) : result A :=
  snd (run_alone (search_in w) c).

End Coroutines.

(** ** Notions used in the properties *)

(** A text on one line. *)
Definition no_newline (s : string) : bool :=
  PyStr.all_chars (fun c => negb (Ascii.eqb c PyStr.newline)) s.

(** An answer as the batch hands it out: not empty, trimmed, on one line. *)
Definition clean_answer (a : string) : Prop :=
  a <> EmptyString /\ PyStr.strip a = a /\ no_newline a = true.

(** A computation that leaves the state as it finds it. *)
Definition reads_only {A} (m : M A) : Prop := forall w, snd (m w) = w.

(** The plan for a question in state [w]: the decoded object, or the
    identity plan. *)
Definition planned `{CompletionService} `{PlanningAgent.JsonCodec}
  (question : string) (w : world) : PlanningAgent.research_plan :=
  match generate (calls w) PlanningModel
          (PlanningAgent.prompt_plan (PlanningAgent.json_dumps question)) with
  | Raise _ => PlanningAgent.identity_plan question
  | Ok response_text =>
      match PlanningAgent.json_loads response_text with
      | Ok (JObject (member :: members)) => member :: members
      | _ => PlanningAgent.identity_plan question
      end
  end.

(** What synthesis answers for a context that joins to [ctx]. *)
Definition synthesized `{CompletionService} (question ctx : string) (w : world)
  : string :=
  match generate (calls w) SynthesisModel
          (SynthesisAgent.prompt_final ctx question) with
  | Ok response_text => response_text
  | Raise _ => SynthesisAgent.GENERATION_ERROR
  end.

(** A chunk that is a string, as [str.join] requires. *)
Definition is_text (chunk : payload) : bool :=
  match chunk with Text _ => true | Number _ => false end.

(** The same services with another ingestion. *)
Definition with_ingestion (services : Run.Services)
  (ingestion_backend : RetrievalService.IngestionBackend) : Run.Services :=
  {| Run.completion_service := Run.completion_service;
     Run.json_codec := Run.json_codec;
     Run.retrieval_backend := Run.retrieval_backend;
     Run.ingestion_backend := ingestion_backend |}.

(** The retrieval breadth of a search event. *)
Definition event_top_k (ev : Coroutines.event) : Z :=
  match ev with
  | Coroutines.Issued _ top_k | Coroutines.Joined _ top_k => top_k
  end.

(** Every search the coroutine may issue, whatever it is resumed with, asks
    for [k] candidates. *)
Inductive asks_for (k : Z) {A} : Coroutines.coroutine A -> Prop :=
| asks_return a : asks_for k (Coroutines.Return a)
| asks_throw e : asks_for k (Coroutines.Throw e)
| asks_await query resume :
    (forall r, asks_for k (resume r)) ->
    asks_for k (Coroutines.AwaitSearch query k resume).

(** The searches a coroutine makes when run on its own. *)
Fixpoint searches {A} (search : json -> Z -> result (list payload))
  (c : Coroutines.coroutine A) : nat :=
  match c with
  | Coroutines.AwaitSearch query top_k resume =>
      S (searches search (resume (search query top_k)))
  | Coroutines.Return _ | Coroutines.Throw _ => 0
  end.

(** A completion order that lets each task in turn run to its end. *)
Definition one_task_after_another {A}
  (search : json -> Z -> result (list payload))
  (tasks : list (Coroutines.coroutine A)) : list nat :=
  concat (imap (fun j c => replicate (searches search c) j) tasks).

(** ** [three_retrieval_service.py]: the vectors of an ingestion *)

(** One entry of [vectors_to_upsert]: the dictionary with the keys ["id"],
    ["values"] and ["metadata"]. *)
Record upsert_vector (E : Type) : Type := Vector {
  vector_id : string;
  vector_values : E;
  vector_metadata : gmap string payload
}.
Arguments Vector {E} vector_id vector_values vector_metadata.
Arguments vector_id {E} _.
Arguments vector_values {E} _.
Arguments vector_metadata {E} _.

(** The loop over [enumerate(zip(self.text_chunks, chunk_embeddings))] of
    [ingest_and_process_pdf]. *)
Definition vectors_to_upsert {E} (text_chunks : list string)
  (chunk_embeddings : list E) : list (upsert_vector E) :=
  imap (fun i item =>
          Vector (PyStr.str i) (snd item) {[ "text" := Text (fst item) ]})
       (zip text_chunks chunk_embeddings).

(** The index answers with what was stored: the match has the id and the
    metadata of one of the vectors. *)
Definition stored_as {E} (vectors : list (upsert_vector E))
  (m : RetrievalService.pinecone_match) : Prop :=
  exists v, v ∈ vectors
            /\ RetrievalService.match_id m = vector_id v
            /\ RetrievalService.match_metadata m = vector_metadata v.

(** ** Collaborators for the examples *)

(** A completion service that plays a script: the n-th call of the process
    gets the n-th outcome, and raises once the script is over. *)
Definition scripted (outcomes : list (result string)) : CompletionService :=
  {| generate history _ _ :=
       nth (length history) outcomes (Raise (ServiceError "unavailable")) |}.

(** An index of three chunks; the cross-encoder scores them 1, 3 and 1. *)
Definition sample_matches : list RetrievalService.pinecone_match :=
  [ RetrievalService.Match "0" {[ "text" := Text "alpha" ]};
    RetrievalService.Match "1" {[ "text" := Text "beta" ]};
    RetrievalService.Match "2" {[ "text" := Text "gamma" ]} ].

Definition sample_backend : RetrievalService.RetrievalBackend :=
  {| RetrievalService.vector := unit;
     RetrievalService.encode _ := Ok tt;
     RetrievalService.index_query _ _ := Ok sample_matches;
     RetrievalService.predict _ := Ok [1%Q; 3%Q; 1%Q] |}.

(** The same index with a number stored as the text of its second vector. *)
Definition mixed_backend : RetrievalService.RetrievalBackend :=
  {| RetrievalService.vector := unit;
     RetrievalService.encode _ := Ok tt;
     RetrievalService.index_query _ _ :=
       Ok [ RetrievalService.Match "0" {[ "text" := Text "alpha" ]};
            RetrievalService.Match "1" {[ "text" := Number 7 ]} ];
     RetrievalService.predict _ := Ok [1%Q; 3%Q] |}.

(** An index that answers a question with a number and any other query
    with a chunk of text. *)
Definition split_backend : RetrievalService.RetrievalBackend :=
  {| RetrievalService.vector := json;
     RetrievalService.encode query := Ok query;
     RetrievalService.index_query v _ :=
       match v with
       | JString (String "q" _) =>
           Ok [ RetrievalService.Match "1" {[ "text" := Number 7 ]} ]
       | _ => Ok [ RetrievalService.Match "0" {[ "text" := Text "alpha" ]} ]
       end;
     RetrievalService.predict _ := Ok [1%Q] |}.

(** A decoder that knows one text, a plan of two sub-questions. *)
Definition sample_codec : PlanningAgent.JsonCodec :=
  {| PlanningAgent.json_dumps s := PyStr.quoted s;
     PlanningAgent.json_loads s :=
       if String.eqb s "plan"
       then Ok (JObject [("sub1", JArray [JString "h1"; JString "h2"]);
                         ("sub2", JArray [JString "h3"])])
       else Raise (ValueError "Expecting value") |}.

Definition sample_services (outcomes : list (result string))
  (backend : RetrievalService.RetrievalBackend) : Run.Services :=
  {| Run.completion_service := scripted outcomes;
     Run.json_codec := sample_codec;
     Run.retrieval_backend := backend;
     Run.ingestion_backend :=
       {| RetrievalService.ingestion _ := RetrievalService.Ingested |} |}.

Definition fresh_world : world := World None ∅ false [].
Definition attached_world : world :=
  World (Some RetrievalService.INDEX_NAME) ∅ true [].

(** An index one of whose vectors has no text stored with it. *)
Definition untexted_backend : RetrievalService.RetrievalBackend :=
  {| RetrievalService.vector := unit;
     RetrievalService.encode _ := Ok tt;
     RetrievalService.index_query _ _ :=
       Ok [ RetrievalService.Match "0" {[ "text" := Text "alpha" ]};
            RetrievalService.Match "1" {[ "page" := Number 3 ]} ];
     RetrievalService.predict _ := Ok [1%Q; 3%Q] |}.

(** An index in which nothing matches. *)
Definition empty_backend : RetrievalService.RetrievalBackend :=
  {| RetrievalService.vector := unit;
     RetrievalService.encode _ := Ok tt;
     RetrievalService.index_query _ _ := Ok [];
     RetrievalService.predict _ := Ok [] |}.

(** An ingestion that creates the index and fails in the upsert. *)
Definition failing_upsert : RetrievalService.IngestionBackend :=
  {| RetrievalService.ingestion _ :=
       RetrievalService.FailsAfterAttach (ServiceError "upsert") |}.

(** A state with one answer in the cache. *)
Definition cached_world : world :=
  World (Some RetrievalService.INDEX_NAME) {[ "q" := "a" ]} true [].

(** * Properties *)

(** ** The numbered-answer parser *)

Section ParserFacts.
Import PyStr CombinedAgent.

Lemma append_cons c s r : String c s +:+ r = String c (s +:+ r).
Proof. reflexivity. Qed.

Lemma append_nil r : EmptyString +:+ r = r.
Proof. reflexivity. Qed.

Lemma isdecimal_isdigit c : isdecimal c = true -> isdigit c = true.
Proof. unfold isdigit. intros ->. reflexivity. Qed.

Lemma period_not_digit : isdigit period = false.
Proof. reflexivity. Qed.

Lemma int_acc_decimal ds : forall acc k,
  int_acc acc ds = Some k -> all_chars isdecimal ds = true.
Proof.
  induction ds as [|c ds IH]; intros acc k Hk; simpl in *; [reflexivity|].
  destruct (isdecimal c); [|discriminate].
  simpl. eapply IH, Hk.
Qed.

Lemma int_Some_decimal ds k :
  int ds = Some k -> nonempty ds = true /\ all_chars isdecimal ds = true.
Proof.
  destruct ds as [|c ds]; [discriminate|].
  intros Hk. split; [reflexivity|]. eapply int_acc_decimal, Hk.
Qed.

Lemma all_decimal_digits ds :
  all_chars isdecimal ds = true -> all_chars isdigit ds = true.
Proof.
  induction ds as [|c ds IH]; simpl; [reflexivity|].
  intros [Hc Hds]%andb_prop. rewrite (isdecimal_isdigit _ Hc). simpl. auto.
Qed.

(** The scan cuts the line in two: the digits in front and what follows. *)
Lemma scan_digits_app line :
  fst (scan_digits line) +:+ snd (scan_digits line) = line.
Proof.
  induction line as [|c line IH]; simpl; [reflexivity|].
  destruct (isdigit c); [|reflexivity].
  destruct (scan_digits line) as [n r]. simpl in *.
  now rewrite append_cons, IH.
Qed.

(** Digits followed by a period are scanned as exactly those digits. *)
Lemma scan_digits_period ds rest :
  all_chars isdigit ds = true ->
  scan_digits (ds +:+ String period rest) = (ds, String period rest).
Proof.
  induction ds as [|c ds IH]; simpl.
  - intros _. reflexivity.
  - intros [Hc Hds]%andb_prop. rewrite Hc, (IH Hds). reflexivity.
Qed.

Lemma nonempty_true s : nonempty s = true <-> s <> EmptyString.
Proof. destruct s; simpl; split; congruence. Qed.

Lemma parse_line_entry answers raw :
  parse_line answers raw =
  match line_entry raw with
  | Some (k, a) => <[k := a]> answers
  | None => answers
  end.
Proof.
  unfold parse_line, line_entry.
  destruct (strip raw) as [|c line] eqn:Hline; [reflexivity|].
  destruct (isdigit c) eqn:Hc.
  - destruct (scan_digits (String c line)) as [n [|d tail]]; [reflexivity|].
    destruct (Ascii.eqb d period); [|reflexivity].
    destruct (int n); [|reflexivity].
    destruct (nonempty (strip tail)); reflexivity.
  - simpl. rewrite Hc. destruct (Ascii.eqb c period); reflexivity.
Qed.

Lemma line_entry_spec raw k a :
  line_entry raw = Some (k, a) <-> numbered_line k a raw /\ a <> EmptyString.
Proof.
  unfold line_entry, numbered_line. split.
  - pose proof (scan_digits_app (strip raw)) as Happ.
    destruct (scan_digits (strip raw)) as [n [|d tail]]; [discriminate|].
    destruct (Ascii.eqb d period) eqn:Hd; [|discriminate].
    apply Ascii.eqb_eq in Hd. subst d.
    destruct (int n) as [idx|] eqn:Hn; [|discriminate].
    destruct (nonempty (strip tail)) eqn:Hne; [|discriminate].
    intros [= <- <-]. split; [|now apply nonempty_true].
    exists n, tail. simpl in Happ. auto.
  - intros [(ds & rest & Hline & Hds & Ha) Hne].
    destruct (int_Some_decimal _ _ Hds) as [_ Hdec].
    rewrite Hline, (scan_digits_period _ _ (all_decimal_digits _ Hdec)).
    rewrite Ascii.eqb_refl, Hds, Ha.
    apply nonempty_true in Hne. now rewrite Hne.
Qed.

Lemma silent_spec k raw :
  silent k raw <-> forall a, numbered_line k a raw -> a = EmptyString.
Proof.
  unfold silent. split.
  - intros Hs a Hline. destruct a as [|c a]; [reflexivity|].
    exfalso. apply (Hs (String c a)), line_entry_spec. now split.
  - intros Hs a [Hline Hne]%line_entry_spec. auto.
Qed.

Lemma parse_line_lookup answers raw k a :
  parse_line answers raw !! k = Some a <->
  line_entry raw = Some (k, a) \/ (silent k raw /\ answers !! k = Some a).
Proof.
  rewrite parse_line_entry. unfold silent.
  destruct (line_entry raw) as [[k' a']|].
  - destruct (decide (k' = k)) as [->|Hne].
    + rewrite lookup_insert_eq. split.
      * intros [= ->]. now left.
      * intros [[= ->]|[Hs _]]; [reflexivity|]. now destruct (Hs a').
    + rewrite lookup_insert_ne by assumption. split.
      * intros Hk. right. split; [|assumption]. intros a0 [= -> ->]. now apply Hne.
      * intros [[= -> ->]|[_ Hk]]; [now destruct Hne|assumption].
  - split.
    + intros Hk. right. split; [|assumption]. discriminate.
    + intros [|[_ Hk]]; [discriminate|assumption].
Qed.

(** The value under [k] after the loop is written by the last line that
    writes under [k]; before any such line it is the initial one. *)
Lemma fold_parse_line_lookup lines : forall answers k a,
  fold_left parse_line lines answers !! k = Some a <->
  (exists before raw after,
      lines = before ++ raw :: after /\ line_entry raw = Some (k, a)
      /\ Forall (silent k) after)
  \/ (Forall (silent k) lines /\ answers !! k = Some a).
Proof.
  induction lines as [|raw lines IH]; intros answers k a; simpl.
  - split.
    + intros Hk. right. split; [constructor|assumption].
    + intros [(before & raw & after & Hl & _)|[_ Hk]]; [|assumption].
      now destruct before.
  - rewrite IH, parse_line_lookup. split.
    + intros [(before & raw' & after & -> & He & Hs)|[Hs [He|[Hr Hk]]]].
      * left. exists (raw :: before), raw', after. auto.
      * left. exists [], raw, lines. auto.
      * right. split; [constructor|]; assumption.
    + intros [(before & raw' & after & Hl & He & Hs)|[Hs Hk]].
      * destruct before as [|r before]; simplify_eq/=.
        -- right. split; [assumption|]. now left.
        -- left. exists before, raw', after. auto.
      * apply Forall_cons in Hs as [Hr Hs]. right. split; [assumption|].
        right. now split.
Qed.

Lemma parse_map_lookup response_text k a :
  _parse_numbered_answers_map response_text !! k = Some a <->
  a <> EmptyString /\
  exists before raw after,
    split_lines response_text = before ++ raw :: after
    /\ numbered_line k a raw
    /\ forall raw' a', raw' ∈ after -> numbered_line k a' raw' ->
                       a' = EmptyString.
Proof.
  unfold _parse_numbered_answers_map.
  rewrite fold_parse_line_lookup. split.
  - intros [(before & raw & after & Hl & He & Hs)|[_ Hk]].
    + apply line_entry_spec in He as [Hline Hne]. split; [assumption|].
      exists before, raw, after. repeat split; try assumption.
      intros raw' a' Hin. rewrite Forall_forall in Hs.
      now apply silent_spec, Hs.
    + now rewrite lookup_empty in Hk.
  - intros [Hne (before & raw & after & Hl & Hline & Hs)].
    left. exists before, raw, after. repeat split; try assumption.
    + apply line_entry_spec. now split.
    + apply Forall_forall. intros raw' Hin. apply silent_spec.
      intros a'. now apply Hs.
Qed.



(** The parser never stores an empty answer. *)
Lemma parse_numbered_answers_nonempty response_text k a :
  _parse_numbered_answers_map response_text !! k = Some a -> nonempty a = true.
Proof.
  intros Hk. apply parse_map_lookup in Hk as [Hne _].
  now apply nonempty_true.
Qed.

End ParserFacts.

(** ** Batched synthesis *)

Section BatchFacts.
Import PyStr CombinedAgent.
Context `{CompletionService}.

Lemma parsed_nonempty outcome : nonempty_values (parsed outcome).
Proof.
  intros k a. destruct outcome as [t|e]; simpl.
  - apply parse_numbered_answers_nonempty.
  - now rewrite lookup_empty.
Qed.

Lemma falsy_lookup m k :
  nonempty_values m -> falsy (m !! k) = true <-> m !! k = None.
Proof.
  intros Hm. destruct (m !! k) as [a|] eqn:Hk; simpl.
  - rewrite (Hm _ _ Hk). split; discriminate.
  - split; reflexivity.
Qed.

Lemma enumerate_map_filter {A} (f : nat -> A) (P : A -> bool) l :
  map fst (filter (fun p => P (snd p) = true) (zip l (map f l)))
  = filter (fun i => P (f i) = true) l.
Proof.
  induction l as [|i l IH]; [reflexivity|].
  simpl. rewrite !filter_cons. simpl.
  destruct (decide (P (f i) = true)); simpl; now rewrite IH.
Qed.

Lemma missing_indices_of m n :
  nonempty_values m ->
  let results := map (fun i => m !! (i + 1)) (seq 0 n) in
  map fst (filter (fun p => falsy (snd p) = true) (enumerate results))
  = missing_of m n.
Proof.
  intros Hm results. unfold enumerate, results, missing_of.
  rewrite length_map, length_seq, enumerate_map_filter.
  apply list_filter_iff. intros i. now apply falsy_lookup.
Qed.

Lemma refill_nil retry_map i old : refill retry_map [] i old = old.
Proof.
  unfold refill. destruct (decide _) as [[Hin _]|]; [|reflexivity].
  inversion Hin.
Qed.

Lemma refill_snoc_other retry_map missing idx i old :
  falsy (retry_map !! (idx + 1)) = true \/ idx <> i ->
  refill retry_map (missing ++ [idx]) i old = refill retry_map missing i old.
Proof.
  intros Hidx. unfold refill.
  destruct (decide (i ∈ missing ++ [idx] /\ _)) as [[Hin Hw]|Hn];
    destruct (decide (i ∈ missing /\ _)) as [[Hin' Hw']|Hn']; try reflexivity.
  - exfalso. apply elem_of_app in Hin as [Hin|Hin%list_elem_of_singleton].
    + apply Hn'. now split.
    + subst i. destruct Hidx; congruence.
  - exfalso. apply Hn. split; [|assumption]. apply elem_of_app. now left.
Qed.

Lemma refill_snoc_same retry_map missing idx old :
  falsy (retry_map !! (idx + 1)) = false ->
  refill retry_map (missing ++ [idx]) idx old = retry_map !! (idx + 1).
Proof.
  intros Hw. unfold refill. rewrite decide_True; [reflexivity|].
  split; [|assumption]. apply elem_of_app. right.
  now apply list_elem_of_singleton.
Qed.

Lemma fill_missing_imap retry_map missing results :
  fill_missing retry_map missing results
  = imap (refill retry_map missing) results.
Proof.
  unfold fill_missing.
  induction missing as [|idx missing IH] using rev_ind.
  - simpl. apply list_eq. intros i. rewrite list_lookup_imap.
    destruct (results !! i); simpl; [|reflexivity]. now rewrite refill_nil.
  - rewrite fold_left_app. simpl. rewrite IH. clear IH.
    apply list_eq. intros i. rewrite list_lookup_imap.
    destruct (falsy (retry_map !! (idx + 1))) eqn:Hf.
    + rewrite list_lookup_imap. destruct (results !! i); simpl; [|reflexivity].
      rewrite refill_snoc_other; auto.
    + destruct (decide (idx = i)) as [->|Hne].
      * destruct (results !! i) as [r|] eqn:Hr; simpl.
        -- rewrite list_lookup_insert_eq.
           ++ now rewrite refill_snoc_same.
           ++ rewrite length_imap. eapply lookup_lt_Some, Hr.
        -- apply lookup_ge_None. rewrite length_insert, length_imap.
           now apply lookup_ge_None.
      * rewrite list_lookup_insert_ne by assumption.
        rewrite list_lookup_imap. destruct (results !! i); simpl; [|reflexivity].
        rewrite refill_snoc_other; auto.
Qed.

Lemma elem_of_missing_of m n i :
  i ∈ missing_of m n <-> m !! (i + 1) = None /\ i < n.
Proof.
  unfold missing_of. rewrite list_elem_of_filter, elem_of_seq.
  split; intros [? ?]; split; try assumption; lia.
Qed.

(** The answers of the batch once both maps are known. *)
Lemma finalize_fill_missing first_map retry_map n :
  nonempty_values first_map -> nonempty_values retry_map ->
  finalize (fill_missing retry_map (missing_of first_map n)
              (map (fun i => first_map !! (i + 1)) (seq 0 n)))
  = map (slot first_map retry_map) (seq 0 n).
Proof.
  intros H1 H2. rewrite fill_missing_imap. unfold finalize.
  apply list_eq. intros i.
  change (((fun ans : option string =>
              match ans with
              | Some s => if nonempty s then s else NOT_FOUND
              | None => NOT_FOUND
              end) <$> imap (refill retry_map (missing_of first_map n))
                         ((fun i => first_map !! (i + 1)) <$> seq 0 n)) !! i
          = (slot first_map retry_map <$> seq 0 n) !! i).
  rewrite !list_lookup_fmap, list_lookup_imap, list_lookup_fmap.
  destruct (decide (i < n)) as [Hlt|Hge].
  - rewrite lookup_seq_lt by assumption. simpl. f_equal.
    unfold refill, slot. destruct (decide _) as [Hd|Hd].
    + destruct Hd as [[Hm _]%elem_of_missing_of Hw]. rewrite Hm.
      destruct (retry_map !! (i + 1)) as [a|] eqn:Hr; [|discriminate].
      now rewrite (H2 _ _ Hr).
    + destruct (first_map !! (i + 1)) as [a|] eqn:Hm.
      * now rewrite (H1 _ _ Hm).
      * destruct (retry_map !! (i + 1)) as [a|] eqn:Hr; [|reflexivity].
        exfalso. apply Hd. split.
        -- now apply elem_of_missing_of.
        -- simpl. now rewrite (H2 _ _ Hr).
  - rewrite lookup_seq_ge by lia. reflexivity.
Qed.

Lemma finalize_first first_map n :
  nonempty_values first_map ->
  finalize (map (fun i => first_map !! (i + 1)) (seq 0 n))
  = map (slot first_map ∅) (seq 0 n).
Proof.
  intros H1. unfold finalize. rewrite map_map. apply map_ext. intros i.
  unfold slot. rewrite lookup_empty.
  destruct (first_map !! (i + 1)) as [a|] eqn:Hm; [|reflexivity].
  now rewrite (H1 _ _ Hm).
Qed.

Lemma empty_nonempty_values : nonempty_values ∅.
Proof. intros k a. now rewrite lookup_empty. Qed.

Lemma parse_nonempty_values response_text :
  nonempty_values (_parse_numbered_answers_map response_text).
Proof. intros k a. apply parse_numbered_answers_nonempty. Qed.

(** One invocation, step by step: the outcome of joining the context,
    then of the first call, then (when something is missing and a second
    try is allowed) of the retry. *)
Lemma process_all_run questions context_chunks max_retries w :
  process_all_questions_with_retry questions context_chunks max_retries w =
  match join_context context_chunks with
  | Raise e => (Raise e, w)
  | Ok ctx =>
      let p1 := first_prompt ctx questions in
      let m1 := parsed (generate (calls w) CombinedModel p1) in
      let w1 := log_call (Call CombinedModel p1) w in
      let missing := missing_of m1 (length questions) in
      if bool_decide (missing = []) || (max_retries <=? 1)%Z
      then (Ok (map (slot m1 ∅) (seq 0 (length questions))), w1)
      else
        let p2 := retry_prompt ctx questions missing in
        let m2 := parsed (generate (calls w1) CombinedModel p2) in
        (Ok (map (slot m1 m2) (seq 0 (length questions))),
         log_call (Call CombinedModel p2) w1)
  end.
Proof.
  unfold process_all_questions_with_retry.
  unfold mbind, M_bind, mret, M_ret, lift, try_except, generate_content.
  destruct (join_context context_chunks) as [ctx|e]; [|reflexivity].
  fold (first_prompt ctx questions).
  set (p1 := first_prompt ctx questions).
  set (w1 := log_call (Call CombinedModel p1) w).
  assert (Hm1 : (match generate (calls w) CombinedModel p1 with
                 | Ok a => (Ok (_parse_numbered_answers_map (strip a)), w1)
                 | Raise e => (Ok ∅, w1)
                 end) = (Ok (parsed (generate (calls w) CombinedModel p1)), w1)).
  { destruct (generate (calls w) CombinedModel p1); reflexivity. }
  cbv zeta.
  destruct (generate (calls w) CombinedModel p1) as [t1|e1] eqn:Hg1;
    simpl parsed in *.
  all: rewrite missing_indices_of by (try apply parse_nonempty_values;
                                      try apply empty_nonempty_values).
  all: match goal with
       | |- context [missing_of ?m _] => set (m1 := m)
       end.
  all: assert (Hn1 : nonempty_values m1)
         by (subst m1; first [apply parse_nonempty_values
                             |apply empty_nonempty_values]).
  all: destruct (bool_decide (missing_of m1 (length questions) = [])
                 || (max_retries <=? 1)%Z) eqn:Hstop.
  all: try (now rewrite finalize_first by assumption).
  all: fold (retry_prompt ctx questions (missing_of m1 (length questions))).
  all: set (p2 := retry_prompt ctx questions (missing_of m1 (length questions))).
  all: change (calls w ++ [Call CombinedModel p1]) with (calls w1).
  all: destruct (generate (calls w1) CombinedModel p2) as [t2|e2]; simpl parsed.
  all: try (rewrite finalize_fill_missing
              by (try assumption; apply parse_nonempty_values); reflexivity).
  all: now rewrite finalize_first by assumption.
Qed.



(** The answers of the batch path are as many as the questions. *)
Lemma process_all_length questions context_chunks max_retries w answers w' :
  process_all_questions_with_retry questions context_chunks max_retries w
  = (Ok answers, w') ->
  length answers = length questions.
Proof.
  rewrite process_all_run.
  destruct (join_context context_chunks) as [ctx|e]; [|discriminate].
  cbv zeta. destruct (_ || _); intros [= <- _];
    now rewrite length_map, length_seq.
Qed.

Lemma process_all_raises questions context_chunks max_retries w :
  is_ok (fst (process_all_questions_with_retry
                questions context_chunks max_retries w))
  = is_ok (join_context context_chunks).
Proof.
  rewrite process_all_run.
  destruct (join_context context_chunks) as [ctx|e]; [|reflexivity].
  cbv zeta. now destruct (_ || _).
Qed.

End BatchFacts.



(** ** Single-question synthesis *)

Section SingleFacts.
Import PyStr CombinedAgent SynthesisAgent.
Context `{CompletionService}.


End SingleFacts.



(** ** The planner *)

Section PlannerFacts.
Import PlanningAgent.
Context `{CompletionService} `{JsonCodec}.

(** C7: the planner makes one call, never raises and never returns an
    empty plan: it returns the decoded object when the call succeeds and
    its text decodes to an object with at least one member, and the
    identity plan in every other case. *)
Theorem plan_and_research_total question w :
  let prompt := prompt_plan (json_dumps question) in
  exists plan,
    plan_and_research question w
    = (Ok plan, log_call (Call PlanningModel prompt) w)
    /\ plan <> []
    /\ plan = match generate (calls w) PlanningModel prompt with
              | Raise _ => [(question, JArray [JString question])]
              | Ok response_text =>
                  match json_loads response_text with
                  | Ok (JObject (member :: members)) => member :: members
                  | _ => [(question, JArray [JString question])]
                  end
              end.
Proof.
  intros prompt. unfold plan_and_research.
  unfold mbind, M_bind, mret, M_ret, lift, try_except, generate_content.
  fold prompt.
  destruct (generate (calls w) PlanningModel prompt) as [text|e].
  - destruct (json_loads text) as [[| | | | |[|member members]]|e];
      (eexists; split; [reflexivity|]; split; [discriminate|reflexivity]).
  - eexists; split; [reflexivity|]; split; [discriminate|reflexivity].
Qed.

End PlannerFacts.

(** ** Retrieval *)

Section SortFacts.
Import RetrievalService.

Lemma insert_desc_perm x l : Permutation (insert_desc x l) (x :: l).
Proof.
  induction l as [|y l IH]; simpl; [reflexivity|].
  destruct (Qle_bool (fst y) (fst x)); [reflexivity|].
  rewrite IH. apply perm_swap.
Qed.

Lemma sort_desc_perm l : Permutation (sort_desc l) l.
Proof.
  induction l as [|x l IH]; simpl; [reflexivity|].
  rewrite insert_desc_perm. now constructor.
Qed.

Lemma insert_desc_sorted x l :
  StronglySorted score_ge l -> StronglySorted score_ge (insert_desc x l).
Proof.
  induction l as [|y l IH]; simpl; intros Hs.
  - repeat constructor.
  - apply StronglySorted_inv in Hs as [Hl Hy].
    destruct (Qle_bool (fst y) (fst x)) eqn:Hle.
    + apply Qle_bool_iff in Hle. constructor.
      * now constructor.
      * constructor; [exact Hle|].
        eapply List.Forall_impl; [|exact Hy].
        intros z Hz. unfold score_ge in *. now apply Qle_trans with (fst y).
    + constructor; [now apply IH|].
      assert (Hxy : (fst x <= fst y)%Q).
      { apply Qlt_le_weak, Qnot_le_lt. intros Hc.
        apply Qle_bool_iff in Hc. congruence. }
      eapply Permutation_Forall; [symmetry; apply insert_desc_perm|].
      now constructor.
Qed.

Lemma sort_desc_sorted l : StronglySorted score_ge (sort_desc l).
Proof.
  induction l as [|x l IH]; simpl; [constructor|].
  now apply insert_desc_sorted.
Qed.

Lemma insert_desc_stable s x l :
  List.filter (same_score s) (insert_desc x l)
  = List.filter (same_score s) (x :: l).
Proof.
  induction l as [|y l IH]; [reflexivity|].
  simpl insert_desc.
  destruct (Qle_bool (fst y) (fst x)) eqn:Hle; [reflexivity|].
  simpl in *. rewrite IH.
  destruct (same_score s y) eqn:Hy; [|reflexivity].
  destruct (same_score s x) eqn:Hx; [|reflexivity].
  exfalso. unfold same_score in *.
  apply Qeq_bool_iff in Hx, Hy.
  assert (Hc : Qle_bool (fst y) (fst x) = true); [|congruence].
  apply Qle_bool_iff. rewrite Hx, Hy. apply Qle_refl.
Qed.

Lemma sort_desc_stable s l :
  List.filter (same_score s) (sort_desc l) = List.filter (same_score s) l.
Proof.
  induction l as [|x l IH]; [reflexivity|].
  simpl sort_desc. rewrite insert_desc_stable. simpl. now rewrite IH.
Qed.

End SortFacts.

Section SearchFacts.
Import RetrievalService.
Context `{RetrievalBackend}.

Lemma search_and_rerank_run query top_k top_n w :
  search_and_rerank query top_k top_n w =
  (match index w with
   | None => Raise (RuntimeError NOT_INGESTED)
   | Some _ =>
       match encode query with
       | Raise e => Raise e
       | Ok v =>
           match index_query v top_k with
           | Raise e => Raise e
           | Ok [] => Ok []
           | Ok (m :: ms) => rerank query (m :: ms) top_n
           end
       end
   end, w).
Proof.
  unfold search_and_rerank, mbind, M_bind, mret, M_ret, lift, get_world, raise.
  destruct (index w); [|reflexivity].
  destruct (encode query) as [v|e]; [|reflexivity].
  now destruct (index_query v top_k) as [[|m ms]|e].
Qed.

(** A search reads the state and leaves it as it is. *)
Lemma search_and_rerank_world query top_k top_n w :
  snd (search_and_rerank query top_k top_n w) = w.
Proof. now rewrite search_and_rerank_run. Qed.

(** C8: with no index attached the search raises the not-ready error;
    with an index attached and no match it returns the empty list; with an
    index attached and at least one match its result is that of the
    reranking stage. *)
Theorem search_not_ready_empty_or_rerank query top_k top_n w :
  (index w = None ->
   search_and_rerank query top_k top_n w = (Raise (RuntimeError NOT_INGESTED), w))
  /\ (forall v, index w <> None -> encode query = Ok v ->
       index_query v top_k = Ok [] ->
       search_and_rerank query top_k top_n w = (Ok [], w))
  /\ (forall v m ms, index w <> None -> encode query = Ok v ->
       index_query v top_k = Ok (m :: ms) ->
       search_and_rerank query top_k top_n w
       = (rerank query (m :: ms) top_n, w)).
Proof.
  rewrite search_and_rerank_run. repeat split.
  - now intros ->.
  - intros v Hi -> ->. now destruct (index w).
  - intros v m ms Hi -> ->. now destruct (index w).
Qed.

Lemma zip_snd_same_length {A B} (l : list A) (k : list B) :
  length l = length k -> map snd (zip l k) = k.
Proof.
  revert k. induction l as [|a l IH]; intros [|b k]; simpl; try discriminate.
  - reflexivity.
  - intros [= Hlen]. now rewrite IH.
Qed.

(** C6: when the vector query returns at least one match, every retrieved
    chunk is paired with the query and scored, the scored chunks are put in
    descending order of score, chunks of equal score keeping the order of
    retrieval, and the texts of the first [top_n_rerank] of them are
    returned. *)
Theorem search_returns_top_reranked
  query top_k top_n w name v matches chunks scores :
  index w = Some name ->
  encode query = Ok v ->
  index_query v top_k = Ok matches ->
  matches <> [] ->
  retrieved_texts matches = Ok chunks ->
  predict (map (fun chunk => (query, chunk)) chunks) = Ok scores ->
  length scores = length chunks ->
  (0 <= top_n)%Z ->
  exists ranked,
    search_and_rerank query top_k top_n w
    = (Ok (map snd (take (Z.to_nat top_n) ranked)), w)
    /\ Permutation ranked (zip scores chunks)
    /\ map snd (zip scores chunks) = chunks
    /\ StronglySorted score_ge ranked
    /\ forall s, List.filter (same_score s) ranked
                 = List.filter (same_score s) (zip scores chunks).
Proof.
  intros Hi Hv Hq Hne Ht Hp Hlen Hn.
  exists (sort_desc (zip scores chunks)).
  rewrite search_and_rerank_run, Hi, Hv, Hq.
  destruct matches as [|m ms]; [contradiction|].
  unfold rerank. rewrite Ht, Hp. unfold slice_to.
  rewrite (proj2 (Z.leb_le 0 top_n) Hn).
  split; [reflexivity|].
  split; [apply sort_desc_perm|].
  split; [now apply zip_snd_same_length|].
  split; [apply sort_desc_sorted|].
  intros s. apply sort_desc_stable.
Qed.

End SearchFacts.

(** Three chunks scored 1, 3 and 1, the best two asked for: the chunk
    scored 3 comes first, then the earlier of the two scored 1. *)
Lemma search_top_two_of_three :
  exists ranked : list (Q * payload),
    @RetrievalService.search_and_rerank sample_backend
      (JString "q") 20 2 attached_world
    = (Ok (map snd (take 2 ranked)), attached_world)
    /\ map snd (take 2 ranked) = [Text "beta"; Text "alpha"].
Proof.
  destruct (@search_returns_top_reranked sample_backend (JString "q") 20 2
              attached_world RetrievalService.INDEX_NAME tt sample_matches
              [Text "alpha"; Text "beta"; Text "gamma"] [1%Q; 3%Q; 1%Q]
              eq_refl eq_refl eq_refl ltac:(discriminate) eq_refl eq_refl
              eq_refl ltac:(discriminate))
    as (ranked & Hrun & _).
  exists ranked. split; [exact Hrun|].
  pose proof (eq_trans (eq_sym Hrun) eq_refl
              : (Ok (map snd (take 2 ranked)), attached_world)
                = (Ok [Text "beta"; Text "alpha"], attached_world)) as Heq.
  now injection Heq.
Defined.

(** ** The endpoint *)

Section RunFacts.
Import PyStr CombinedAgent PlanningAgent RetrievalService Run.
Context {services : Services}.

Lemma search_and_rerank_eta query top_k top_n w :
  search_and_rerank query top_k top_n w
  = (fst (search_and_rerank query top_k top_n w), w).
Proof. now rewrite search_and_rerank_run. Qed.

Lemma gather_context_run questions : forall acc w,
  gather_context questions acc w
  = (Ok (acc ∪ ⋃ (map (found w) questions)), w).
Proof.
  induction questions as [|question questions IH]; intros acc w; simpl.
  - unfold mret, M_ret. now rewrite union_empty_r_L.
  - unfold mbind, M_bind, try_except, mret, M_ret.
    rewrite search_and_rerank_eta. unfold found.
    destruct (fst (search_and_rerank (JString question) 30 DEFAULT_TOP_N w))
      as [context|e]; rewrite IH.
    + now rewrite <- (assoc_L (∪)).
    + now rewrite union_empty_l_L.
Qed.

Lemma get_comprehensive_context_run questions w :
  get_comprehensive_context questions w
  = (Ok (elements (⋃ (map (found w) questions))), w).
Proof.
  unfold get_comprehensive_context, mbind, M_bind, mret, M_ret.
  rewrite gather_context_run. now rewrite union_empty_l_L.
Qed.

(** The answering phase: the batch path, and the loop over the questions
    exactly when the batch path raised. *)
Lemma answer_questions_run questions w :
  let w1 := set_question_cache ∅ w in
  let pool := elements (⋃ (map (found w1) questions)) in
  answer_questions questions w =
  match process_all_questions_with_retry questions pool 2 w1 with
  | (Ok answers, w2) => (Ok answers, w2)
  | (Raise _, w2) => fallback_loop questions [] w2
  end.
Proof.
  intros w1 pool. unfold answer_questions.
  unfold mbind at 1. unfold M_bind, modify_world, try_except.
  fold w1. unfold mbind, M_bind.
  rewrite get_comprehensive_context_run. fold pool.
  now destruct (process_all_questions_with_retry questions pool 2 w1)
    as [[answers|e] w2].
Qed.

Lemma fallback_loop_run questions : forall answers w,
  fallback_loop questions answers w
  = (Ok (answers ++ fallback_answers questions w), world_after questions w).
Proof.
  induction questions as [|question questions IH]; intros answers w; simpl.
  - unfold mret, M_ret. now rewrite app_nil_r.
  - unfold mbind, M_bind, try_except, mret, M_ret, fallback_slot.
    destruct (run_single_question_pipeline question w) as [[answer|e] w'];
      rewrite IH; simpl; now rewrite <- app_assoc.
Qed.



Lemma run_submission_run questions w :
  run_submission questions w =
  match index w, ingestion policy_path with
  | Some _, _ | None, Ingested => answer_questions questions (with_index w)
  | None, FailsBeforeAttach e =>
      (Raise (HTTPException 500
                ("Failed to (re)create Pinecone index from local policy file: "
                 +:+ exn_message e)), w)
  | None, FailsAfterAttach e =>
      (Raise (HTTPException 500
                ("Failed to (re)create Pinecone index from local policy file: "
                 +:+ exn_message e)), set_index (Some INDEX_NAME) w)
  end.
Proof.
  unfold run_submission, with_index, ingest_and_process_pdf.
  unfold mbind, M_bind, get_world, try_except, modify_world, raise.
  destruct (index w) as [name|]; [reflexivity|].
  now destruct (ingestion policy_path).
Qed.



(** C10: gathering the context never raises; the pool holds exactly the
    chunks of the questions whose search returned, a question whose search
    raised adding nothing; the answering phase enters the per-question loop
    exactly when the batched synthesis raises, which it does only on a pool
    that [str.join] refuses. *)
Theorem retrieval_failures_are_absorbed questions w :
  (exists pool,
      get_comprehensive_context questions w = (Ok pool, w)
      /\ forall chunk, chunk ∈ pool <->
           exists question context,
             question ∈ questions
             /\ fst (search_and_rerank (JString question) 30 DEFAULT_TOP_N w)
                = Ok context
             /\ chunk ∈ context)
  /\ (let w1 := set_question_cache ∅ w in
      exists pool,
        get_comprehensive_context questions w1 = (Ok pool, w1)
        /\ answer_questions questions w =
           match process_all_questions_with_retry questions pool 2 w1 with
           | (Ok answers, w2) => (Ok answers, w2)
           | (Raise _, w2) => fallback_loop questions [] w2
           end
        /\ is_ok (fst (process_all_questions_with_retry questions pool 2 w1))
           = is_ok (join_context pool)).
Proof.
  split.
  - eexists. split; [apply get_comprehensive_context_run|].
    intros chunk. rewrite elem_of_elements, elem_of_union_list. split.
    + intros (X & HX & Hchunk).
      change (map ?f ?l) with (f <$> l) in HX.
      apply list_elem_of_fmap in HX as (question & -> & Hq).
      unfold found in Hchunk.
      destruct (fst (search_and_rerank (JString question) 30 DEFAULT_TOP_N w))
        as [context|e] eqn:Hs.
      * exists question, context. repeat split; try assumption.
        now apply elem_of_list_to_set in Hchunk.
      * now apply not_elem_of_empty in Hchunk.
    + intros (question & context & Hq & Hs & Hchunk).
      exists (found w question). split.
      * change (map ?f ?l) with (f <$> l).
        apply list_elem_of_fmap. now exists question.
      * unfold found. rewrite Hs. now apply elem_of_list_to_set.
  - cbv zeta. eexists. split; [apply get_comprehensive_context_run|].
    split; [apply answer_questions_run|apply process_all_raises].
Qed.

End RunFacts.

(** ** The order in which searches are issued *)

Section CoroutineFacts.
Import PlanningAgent RetrievalService Run Coroutines.
Context {services : Services}.












End CoroutineFacts.


(** ** Worked examples *)

Section Examples.
Import Coroutines.

(** Leading zeros count for their value, the last line of a number wins, a
    line without digits and a period in front is skipped, and so is a number
    that ends in a superscript digit, which [int] refuses. *)
Example parser_lines :
  CombinedAgent._parse_numbered_answers_map "1. foo
  007.   seven
noise
1. bar
4.5 is
12 . twelve"
  = {[ 1 := "bar"; 7 := "seven"; 4 := "5 is" ]}
  /\ CombinedAgent._parse_numbered_answers_map
       (String "1" (String "178" ". squared"))
     = ∅.
Proof. vm_compute. split; reflexivity. Qed.

(** Two sub-questions: both first searches are issued before either is
    joined, and the second task may finish first. *)
Example sub_question_tasks_overlap :
  let tasks :=
    sub_question_tasks 0
      [("sub1", JArray [JString "h1"; JString "h2"]);
       ("sub2", JArray [JString "h3"])] in
  let search := @search_in sample_backend attached_world in
  gather_trace search [1; 0; 0] tasks
  = [ Issued (JString "h1") 40; Issued (JString "h3") 40;
      Joined (JString "h3") 40;
      Joined (JString "h1") 40; Issued (JString "h2") 40;
      Joined (JString "h2") 40 ]
  /\ peak 0 (gather_trace search [1; 0; 0] tasks) = 2
  /\ forallb (fun c => negb (waiting c)) (gather_final search [1; 0; 0] tasks)
     = true
  /\ gather_final search [1; 0; 0] tasks
     = gather_final search [0; 1; 0] tasks.
Proof. vm_compute. repeat split. Qed.

(** The batch path: two questions, both answered by the first call. *)
Example batch_path_answers :
  fst (@Run.run_submission
         (sample_services [Ok "1. Yes
2. No"] sample_backend)
         ["q1"; "q2"] fresh_world)
  = Ok ["Yes"; "No"].
Proof. vm_compute. reflexivity. Qed.

(** The fallback path: the pool of the batch path holds a number, so the
    batched synthesis raises before any completion call.  The first
    question is planned, retrieved and synthesised; the planner fails on the
    second, whose identity plan retrieves the number again, so that its
    synthesis raises; the third is the first again and comes from the
    cache. *)
Example fallback_path_answers :
  let run :=
    @Run.run_submission
      (sample_services [Ok "plan"; Ok "final one"] split_backend)
      ["q1"; "q2"; "q1"] fresh_world in
  fst run
  = Ok ["final one";
        "An error occurred while processing the question: q2";
        "final one"]
  /\ map call_model (calls (snd run))
     = [PlanningModel; SynthesisModel; PlanningModel].
Proof. vm_compute. split; reflexivity. Qed.

End Examples.

(** * Further properties *)

(** ** The numbering of the prompt and the parser *)

Section StringFacts.
Import PyStr CombinedAgent.

Lemma isdecimal_not_space c : isdecimal c = true -> isspace c = false.
Proof.
  unfold isdecimal, isspace. intros Hc.
  apply andb_prop in Hc as [H1%Nat.leb_le H2%Nat.leb_le].
  repeat (apply orb_false_intro); try apply andb_false_intro2;
    try apply Nat.leb_gt; try apply Nat.eqb_neq; lia.
Qed.

Lemma rstrip_cons_keep c s :
  isspace c = false -> rstrip (String c s) = String c (rstrip s).
Proof. intros Hc. simpl. rewrite Hc. now destruct (rstrip s). Qed.

Lemma rstrip_app_keep ds s :
  all_chars (fun c => negb (isspace c)) ds = true ->
  rstrip (ds +:+ s) = ds +:+ rstrip s.
Proof.
  induction ds as [|c ds IH]; [reflexivity|].
  intros [Hc Hds]%andb_prop. apply negb_true_iff in Hc.
  change (String c ds +:+ s) with (String c (ds +:+ s)).
  rewrite rstrip_cons_keep, IH by assumption. reflexivity.
Qed.

Lemma rstrip_idem s : rstrip (rstrip s) = rstrip s.
Proof.
  induction s as [|c s IH]; [reflexivity|].
  simpl. destruct (rstrip s) as [|d r] eqn:Hr.
  - destruct (isspace c) eqn:Hc; [reflexivity|]. simpl. now rewrite Hc.
  - simpl in *. now rewrite IH.
Qed.

Lemma lstrip_cons c s :
  lstrip (String c s) = if isspace c then lstrip s else String c s.
Proof. reflexivity. Qed.

Lemma lstrip_rstrip s : lstrip (rstrip s) = rstrip (lstrip s).
Proof.
  induction s as [|c s IH]; [reflexivity|].
  rewrite (lstrip_cons c s). destruct (isspace c) eqn:Hc.
  - rewrite <- IH. simpl rstrip. destruct (rstrip s) as [|d r].
    + now rewrite Hc.
    + now rewrite lstrip_cons, Hc.
  - rewrite rstrip_cons_keep by assumption. now rewrite lstrip_cons, Hc.
Qed.

Lemma strip_idem s : strip (strip s) = strip s.
Proof.
  unfold strip. rewrite <- (lstrip_rstrip (rstrip (lstrip s))).
  rewrite rstrip_idem, lstrip_rstrip.
  assert (Hl : forall t, lstrip (lstrip t) = lstrip t).
  { induction t as [|c t IHt]; [reflexivity|].
    rewrite lstrip_cons. destruct (isspace c) eqn:Hc; [assumption|].
    now rewrite lstrip_cons, Hc. }
  now rewrite Hl.
Qed.

Lemma strip_rstrip s : strip (rstrip s) = strip s.
Proof. unfold strip. now rewrite lstrip_rstrip, rstrip_idem. Qed.

Lemma strip_space_cons c s : isspace c = true -> strip (String c s) = strip s.
Proof. intros Hc. unfold strip. now rewrite lstrip_cons, Hc. Qed.

Lemma all_decimal_not_space ds :
  all_chars isdecimal ds = true ->
  all_chars (fun c => negb (isspace c)) ds = true.
Proof.
  induction ds as [|c ds IH]; simpl; [reflexivity|].
  intros [Hc Hds]%andb_prop.
  now rewrite (isdecimal_not_space _ Hc), IH.
Qed.

(** [int(str(n)) == n] *)

Lemma pretty_N_char_decimal d :
  (d < 10)%N ->
  isdecimal (pretty_N_char d) = true
  /\ digit_value (pretty_N_char d) = N.to_nat d.
Proof.
  intros Hd.
  assert (d = 0 \/ d = 1 \/ d = 2 \/ d = 3 \/ d = 4 \/ d = 5 \/ d = 6
          \/ d = 7 \/ d = 8 \/ d = 9)%N as Hcases by lia.
  repeat (destruct Hcases as [->|Hcases]; [split; reflexivity|]).
  subst d. split; reflexivity.
Qed.

Lemma int_acc_app s1 s2 : forall acc,
  int_acc acc (s1 +:+ s2)
  = match int_acc acc s1 with
    | Some a => int_acc a s2
    | None => None
    end.
Proof.
  induction s1 as [|c s1 IH]; intros acc; [reflexivity|].
  change (String c s1 +:+ s2) with (String c (s1 +:+ s2)). simpl.
  destruct (isdecimal c); [apply IH|reflexivity].
Qed.

Lemma append_assoc s1 s2 s3 : (s1 +:+ s2) +:+ s3 = s1 +:+ (s2 +:+ s3).
Proof.
  induction s1 as [|c s1 IH]; [reflexivity|].
  change (String c ((s1 +:+ s2) +:+ s3) = String c (s1 +:+ (s2 +:+ s3))).
  now rewrite IH.
Qed.

Lemma pretty_N_go_app x : forall s,
  pretty_N_go x s = pretty_N_go x EmptyString +:+ s.
Proof.
  induction (N.lt_wf_0 x) as [x _ IH]; intros s.
  destruct (decide (x = 0)%N) as [->|Hx]; [reflexivity|].
  assert (Hlt : (x `div` 10 < x)%N) by (apply N.div_lt; lia).
  rewrite !(pretty_N_go_step x) by lia.
  rewrite (IH _ Hlt (String _ s)), (IH _ Hlt (String _ EmptyString)).
  now rewrite append_assoc.
Qed.

Lemma int_acc_pretty_N_go x :
  int_acc 0 (pretty_N_go x EmptyString) = Some (N.to_nat x).
Proof.
  induction (N.lt_wf_0 x) as [x _ IH].
  destruct (decide (x = 0)%N) as [->|Hx]; [reflexivity|].
  assert (Hlt : (x `div` 10 < x)%N) by (apply N.div_lt; lia).
  rewrite pretty_N_go_step, pretty_N_go_app, int_acc_app by lia.
  rewrite (IH _ Hlt). simpl.
  destruct (pretty_N_char_decimal (x `mod` 10)%N) as [-> ->].
  { apply N.mod_lt. lia. }
  f_equal. pose proof (N.div_mod x 10). lia.
Qed.

Lemma pretty_N_go_nonempty x :
  (0 < x)%N -> nonempty (pretty_N_go x EmptyString) = true.
Proof.
  intros Hx. rewrite pretty_N_go_step, pretty_N_go_app by assumption.
  now destruct (pretty_N_go _ _).
Qed.

Lemma int_str n : int (str n) = Some n.
Proof.
  unfold str, pretty, pretty_nat, pretty, pretty_N.
  destruct (decide (N.of_nat n = 0)%N) as [H0|Hn].
  - assert (n = 0) as -> by lia. reflexivity.
  - pose proof (pretty_N_go_nonempty (N.of_nat n)) as Hne.
    pose proof (int_acc_pretty_N_go (N.of_nat n)) as Hint.
    unfold int. destruct (pretty_N_go (N.of_nat n) EmptyString).
    + discriminate Hne. lia.
    + rewrite Hint. f_equal. lia.
Qed.

(** The line the prompts write for a question is read back by the parser
    under the same number. *)
Lemma line_entry_numbered n text :
  line_entry (str n +:+ ". " +:+ text)
  = if nonempty (strip text) then Some (n, strip text) else None.
Proof.
  destruct (int_Some_decimal _ _ (int_str n)) as [Hne Hdec].
  assert (Hstrip : strip (str n +:+ ". " +:+ text)
                   = str n +:+ String period (rstrip (String " " text))).
  { unfold strip.
    assert (Hl : lstrip (str n +:+ ". " +:+ text) = str n +:+ ". " +:+ text).
    { destruct (str n) as [|c ds]; [discriminate|].
      change (String c ds +:+ ?r) with (String c (ds +:+ r)).
      rewrite lstrip_cons. simpl in Hdec. apply andb_prop in Hdec as [Hc _].
      now rewrite (isdecimal_not_space _ Hc). }
    rewrite Hl, rstrip_app_keep by now apply all_decimal_not_space.
    f_equal. change (". " +:+ text) with (String period (String " " text)).
    now rewrite rstrip_cons_keep. }
  unfold line_entry. rewrite Hstrip.
  rewrite scan_digits_period by now apply all_decimal_digits.
  rewrite Ascii.eqb_refl, int_str, strip_rstrip, strip_space_cons by reflexivity.
  reflexivity.
Qed.

(** [split] after [join] *)

Lemma split_lines_single s : no_newline s = true -> split_lines s = [s].
Proof.
  induction s as [|c s IH]; [reflexivity|].
  simpl. intros [Hc Hs]%andb_prop. apply negb_true_iff in Hc.
  now rewrite Hc, (IH Hs).
Qed.

Lemma split_lines_app_newline s t :
  no_newline s = true ->
  split_lines (s +:+ String newline t) = s :: split_lines t.
Proof.
  induction s as [|c s IH].
  - intros _. reflexivity.
  - intros [Hc Hs]%andb_prop. apply negb_true_iff in Hc.
    change (String c s +:+ ?r) with (String c (s +:+ r)).
    simpl. now rewrite Hc, (IH Hs).
Qed.

Lemma split_lines_join lines :
  lines <> [] -> forallb no_newline lines = true ->
  split_lines (join (String newline EmptyString) lines) = lines.
Proof.
  induction lines as [|l lines IH]; [contradiction|].
  intros _ [Hl Hlines]%andb_prop. destruct lines as [|l' lines].
  - now apply split_lines_single.
  - change (join _ (l :: l' :: lines))
      with (l +:+ String newline (join (String newline EmptyString) (l' :: lines))).
    rewrite split_lines_app_newline by assumption.
    now rewrite IH.
Qed.

Lemma all_chars_app p s1 s2 :
  all_chars p (s1 +:+ s2) = all_chars p s1 && all_chars p s2.
Proof.
  induction s1 as [|c s1 IH]; [reflexivity|].
  change (String c s1 +:+ s2) with (String c (s1 +:+ s2)). simpl.
  now rewrite IH, andb_assoc.
Qed.

Lemma all_chars_impl (p q : ascii -> bool) s :
  (forall c, p c = true -> q c = true) ->
  all_chars p s = true -> all_chars q s = true.
Proof.
  intros Hpq. induction s as [|c s IH]; simpl; [reflexivity|].
  intros [Hc Hs]%andb_prop. now rewrite (Hpq _ Hc), IH.
Qed.

Lemma str_no_newline n : no_newline (str n) = true.
Proof.
  destruct (int_Some_decimal _ _ (int_str n)) as [_ Hdec].
  eapply all_chars_impl; [|exact Hdec].
  intros c Hc. apply negb_true_iff, Ascii.eqb_neq. intros ->. discriminate.
Qed.

Lemma numbered_questions_lookup answers i :
  numbered_questions answers !! i
  = (fun text => str (i + 1) +:+ ". " +:+ text) <$> answers !! i.
Proof. unfold numbered_questions. apply list_lookup_imap. Qed.

Lemma numbered_questions_no_newline answers :
  forallb no_newline answers = true ->
  forallb no_newline (numbered_questions answers) = true.
Proof.
  intros Hans. apply forallb_forall. intros line Hin.
  apply list_elem_of_In, list_elem_of_lookup in Hin as [i Hi].
  rewrite numbered_questions_lookup in Hi.
  destruct (answers !! i) as [text|] eqn:Ht; [|discriminate].
  injection Hi as <-. unfold no_newline. rewrite !all_chars_app.
  fold (no_newline (str (i + 1))). rewrite str_no_newline. simpl.
  rewrite forallb_forall in Hans. apply Hans.
  apply list_elem_of_In, list_elem_of_lookup. now exists i.
Qed.

(** A response made of the lines [n. answer], one per answer and numbered
    from 1, is read back as exactly these answers, trimmed; an answer that
    trims to nothing is left out. *)
Lemma parse_numbered_lines_lookup answers k a :
  forallb no_newline answers = true ->
  _parse_numbered_answers_map
    (join (String newline EmptyString) (numbered_questions answers)) !! k
  = Some a
  <-> exists i text,
        k = i + 1 /\ answers !! i = Some text /\ a = strip text
        /\ a <> EmptyString.
Proof.
  intros Hans.
  destruct (decide (answers = [])) as [->|Hne].
  { split; [discriminate|]. now intros (i & text & _ & Hi & _). }
  assert (Hlines : numbered_questions answers <> []).
  { intros Hnil. apply (f_equal length) in Hnil.
    unfold numbered_questions in Hnil. rewrite length_imap in Hnil.
    now destruct answers. }
  unfold _parse_numbered_answers_map.
  rewrite split_lines_join
    by (try assumption; now apply numbered_questions_no_newline).
  rewrite fold_parse_line_lookup. split.
  - intros [(before & raw & after & Hl & He & _)|[_ Hk]];
      [|now rewrite lookup_empty in Hk].
    assert (Hraw : numbered_questions answers !! length before = Some raw).
    { rewrite Hl. now apply list_lookup_middle. }
    rewrite numbered_questions_lookup in Hraw.
    destruct (answers !! length before) as [text|] eqn:Ht; [|discriminate].
    injection Hraw as <-. rewrite line_entry_numbered in He.
    destruct (nonempty (strip text)) eqn:Hn; [|discriminate].
    injection He as <- <-. exists (length before), text.
    repeat split; try assumption. now apply nonempty_true.
  - intros (i & text & -> & Ht & -> & Hn). left.
    assert (Hraw : numbered_questions answers !! i
                   = Some (str (i + 1) +:+ ". " +:+ text)).
    { now rewrite numbered_questions_lookup, Ht. }
    exists (take i (numbered_questions answers)),
           (str (i + 1) +:+ ". " +:+ text),
           (drop (S i) (numbered_questions answers)).
    split; [symmetry; now apply take_drop_middle|].
    split.
    { rewrite line_entry_numbered. apply nonempty_true in Hn. now rewrite Hn. }
    apply Forall_lookup. intros j raw Hj.
    rewrite lookup_drop, numbered_questions_lookup in Hj.
    destruct (answers !! (S i + j)) as [text'|]; [|discriminate].
    injection Hj as <-. intros a'. rewrite line_entry_numbered.
    destruct (nonempty (strip text')); [|discriminate].
    intros [= Hij _]. lia.
Qed.

(** X1: the numbering of the prompt read back.  In a response made of
    the lines [n. answer], one per answer and numbered from 1 as the
    questions of the prompt are, the parser finds under [k] exactly the
    [k]-th answer, trimmed; an answer that trims to nothing is left out,
    and no other number is found. *)
Theorem numbered_lines_round_trip answers k a :
  forallb no_newline answers = true ->
  _parse_numbered_answers_map
    (join (String newline EmptyString) (numbered_questions answers)) !! k
  = Some a
  <-> exists i text,
        k = i + 1 /\ answers !! i = Some text /\ a = strip text
        /\ a <> EmptyString.
Proof. apply parse_numbered_lines_lookup. Qed.

End StringFacts.

(** ** The answers of the batch *)

Section CleanFacts.
Import PyStr CombinedAgent.

Lemma all_chars_lstrip p s : all_chars p s = true -> all_chars p (lstrip s) = true.
Proof.
  induction s as [|c s IH]; [reflexivity|].
  intros Hs. rewrite lstrip_cons. destruct (isspace c); [|assumption].
  simpl in Hs. apply andb_prop in Hs as [_ Hs]. now apply IH.
Qed.

Lemma all_chars_rstrip p s : all_chars p s = true -> all_chars p (rstrip s) = true.
Proof.
  induction s as [|c s IH]; [reflexivity|].
  simpl. intros [Hc Hs]%andb_prop. specialize (IH Hs).
  destruct (rstrip s) as [|d r].
  - destruct (isspace c); [reflexivity|]. simpl. now rewrite Hc.
  - simpl in *. now rewrite Hc, IH.
Qed.

Lemma all_chars_strip p s : all_chars p s = true -> all_chars p (strip s) = true.
Proof. intros Hs. now apply all_chars_rstrip, all_chars_lstrip. Qed.

Lemma all_chars_scan_rest p line :
  all_chars p line = true -> all_chars p (snd (scan_digits line)) = true.
Proof.
  induction line as [|c line IH]; [reflexivity|].
  intros Hl. simpl. destruct (isdigit c); [|assumption].
  simpl in Hl. apply andb_prop in Hl as [_ Hl]. specialize (IH Hl).
  now destruct (scan_digits line).
Qed.

Lemma no_newline_cons c s :
  no_newline (String c s) = negb (Ascii.eqb c newline) && no_newline s.
Proof. reflexivity. Qed.

Lemma split_lines_no_newline s : forallb no_newline (split_lines s) = true.
Proof.
  induction s as [|c s IH]; [reflexivity|].
  simpl split_lines. destruct (Ascii.eqb c newline) eqn:Hc; [exact IH|].
  destruct (split_lines s) as [|l ls].
  - simpl. now rewrite no_newline_cons, Hc.
  - simpl in IH |- *. now rewrite no_newline_cons, Hc.
Qed.

Lemma line_entry_clean raw k a :
  no_newline raw = true -> line_entry raw = Some (k, a) -> clean_answer a.
Proof.
  intros Hraw He. unfold line_entry in He.
  pose proof (all_chars_scan_rest _ _ (all_chars_strip _ _ Hraw)) as Hrest.
  destruct (scan_digits (strip raw)) as [n [|d tail]]; [discriminate|].
  destruct (Ascii.eqb d period); [|discriminate].
  destruct (int n); [|discriminate].
  destruct (nonempty (strip tail)) eqn:Hn; [|discriminate].
  injection He as <- <-. simpl in Hrest. apply andb_prop in Hrest as [_ Htail].
  repeat split.
  - now apply nonempty_true.
  - apply strip_idem.
  - now apply all_chars_strip.
Qed.

Lemma parse_clean response_text k a :
  _parse_numbered_answers_map response_text !! k = Some a -> clean_answer a.
Proof.
  unfold _parse_numbered_answers_map. rewrite fold_parse_line_lookup.
  intros [(before & raw & after & Hl & He & _)|[_ Hk]];
    [|now rewrite lookup_empty in Hk].
  eapply line_entry_clean; [|exact He].
  pose proof (split_lines_no_newline response_text) as Hall.
  rewrite forallb_forall in Hall. apply Hall.
  rewrite Hl. apply in_or_app. right. now left.
Qed.

Lemma parsed_clean outcome k a : parsed outcome !! k = Some a -> clean_answer a.
Proof.
  destruct outcome as [t|e]; simpl.
  - apply parse_clean.
  - now rewrite lookup_empty.
Qed.

Lemma NOT_FOUND_clean : clean_answer NOT_FOUND.
Proof. repeat split. discriminate. Qed.

Lemma slot_clean outcome1 outcome2 i :
  clean_answer (slot (parsed outcome1) (parsed outcome2) i).
Proof.
  unfold slot.
  destruct (parsed outcome1 !! (i + 1)) as [a|] eqn:H1;
    [now apply parsed_clean in H1|].
  destruct (parsed outcome2 !! (i + 1)) as [a|] eqn:H2;
    [now apply parsed_clean in H2|].
  apply NOT_FOUND_clean.
Qed.

End CleanFacts.

Section BatchMore.
Import PyStr CombinedAgent.
Context `{CompletionService}.

(** X2: whatever the completion service answers, every answer of the batch
    is a non-empty, trimmed, single-line text. *)
Theorem batch_answers_are_clean questions context_chunks max_retries w :
  Forall clean_answer
    match fst (process_all_questions_with_retry
                 questions context_chunks max_retries w) with
    | Ok answers => answers
    | Raise _ => []
    end.
Proof.
  rewrite process_all_run.
  destruct (join_context context_chunks) as [ctx|e]; [|constructor].
  cbv zeta. destruct (_ || _); simpl.
  - apply List.Forall_forall. intros a [i [<- _]]%in_map_iff.
    apply (slot_clean _ (Raise (ServiceError EmptyString))).
  - apply List.Forall_forall. intros a [i [<- _]]%in_map_iff. apply slot_clean.
Qed.

Lemma missing_of_nil m n :
  (forall i, i < n -> m !! (i + 1) <> None) -> missing_of m n = [].
Proof.
  intros Hall. unfold missing_of.
  destruct (filter _ (seq 0 n)) as [|i l] eqn:Hf; [reflexivity|].
  assert (Hi : i ∈ filter (fun i => m !! (i + 1) = None) (seq 0 n)).
  { rewrite Hf. now left. }
  apply list_elem_of_filter in Hi as [Hnone Hi%elem_of_seq].
  destruct (Hall i); [lia|assumption].
Qed.

(** X3: a first response that, trimmed, is the lines [n. answer] for every
    question in turn is handed back as these answers, trimmed, after that
    one call, whatever [max_retries] is. *)
Theorem well_formed_response_is_returned
  questions context_chunks max_retries w ctx response_text answers :
  join_context context_chunks = Ok ctx ->
  generate (calls w) CombinedModel (first_prompt ctx questions)
  = Ok response_text ->
  strip response_text
  = join (String newline EmptyString) (numbered_questions answers) ->
  length answers = length questions ->
  forallb (fun a => no_newline a && nonempty (strip a)) answers = true ->
  process_all_questions_with_retry questions context_chunks max_retries w
  = (Ok (map strip answers),
     log_call (Call CombinedModel (first_prompt ctx questions)) w).
Proof.
  intros Hctx Hgen Htext Hlen Hans.
  assert (Hnl : forallb no_newline answers = true).
  { apply forallb_forall. intros a Ha. rewrite forallb_forall in Hans.
    now destruct (andb_prop _ _ (Hans a Ha)). }
  assert (Hlookup : forall i text, answers !! i = Some text ->
            parsed (Ok response_text) !! (i + 1) = Some (strip text)).
  { intros i text Hi. simpl. rewrite Htext.
    apply parse_numbered_lines_lookup; [assumption|].
    exists i, text. repeat split; try assumption.
    apply nonempty_true. rewrite forallb_forall in Hans.
    refine (proj2 (andb_prop _ _ (Hans text _))).
    apply list_elem_of_In, list_elem_of_lookup. now exists i. }
  rewrite process_all_run, Hctx. cbv zeta. rewrite Hgen.
  rewrite missing_of_nil; cycle 1.
  { intros i Hi. destruct (lookup_lt_is_Some_2 answers i) as [text Ht]; [lia|].
    now rewrite (Hlookup i text Ht). }
  rewrite bool_decide_eq_true_2 by reflexivity. simpl orb. cbv iota.
  f_equal. f_equal. apply list_eq. intros i.
  change (map ?f ?l) with (f <$> l). rewrite !list_lookup_fmap.
  destruct (decide (i < length questions)) as [Hi|Hi].
  - rewrite lookup_seq_lt by assumption.
    destruct (lookup_lt_is_Some_2 answers i) as [text Ht]; [lia|].
    rewrite Ht. pose proof (Hlookup i text Ht) as Hx.
    simpl in *. unfold slot. now rewrite Hx.
  - rewrite lookup_seq_ge by lia.
    rewrite (proj2 (lookup_ge_None answers i)) by lia. reflexivity.
Qed.

Lemma process_all_outage questions context_chunks max_retries w ctx :
  join_context context_chunks = Ok ctx ->
  (forall history prompt,
      is_ok (generate history CombinedModel prompt) = false) ->
  fst (process_all_questions_with_retry questions context_chunks max_retries w)
  = Ok (replicate (length questions) NOT_FOUND).
Proof.
  intros Hctx Hdown.
  assert (Hp : forall history prompt,
             parsed (generate history CombinedModel prompt) = ∅).
  { intros history prompt. specialize (Hdown history prompt).
    now destruct (generate history CombinedModel prompt). }
  rewrite process_all_run, Hctx. cbv zeta. rewrite !Hp.
  assert (Hall : forall n start,
             map (slot ∅ ∅) (seq start n) = replicate n NOT_FOUND).
  { induction n as [|n IH]; intros start; [reflexivity|].
    simpl. now rewrite IH. }
  destruct (_ || _); simpl; now rewrite Hall.
Qed.


(** X4: with the completion service down, the batch does not raise: it
    hands back the sentinel for every question. *)
Theorem batch_survives_outage questions context_chunks max_retries w ctx :
  join_context context_chunks = Ok ctx ->
  (forall history prompt,
      is_ok (generate history CombinedModel prompt) = false) ->
  fst (process_all_questions_with_retry questions context_chunks max_retries w)
  = Ok (replicate (length questions) NOT_FOUND).
Proof. apply process_all_outage. Qed.

End BatchMore.

(** ** The per-question pipeline *)

Section PipelineFacts.
Import PyStr CombinedAgent SynthesisAgent PlanningAgent RetrievalService Run.
Context {services : Services}.

Lemma reads_only_eta {A} (m : M A) w : reads_only m -> m w = (fst (m w), w).
Proof. intros Hm. specialize (Hm w). destruct (m w). simpl in *. now subst. Qed.

Lemma search_and_rerank_reads_only query top_k top_n :
  reads_only (search_and_rerank query top_k top_n).
Proof. intros w. apply search_and_rerank_world. Qed.

Lemma search_each_reads_only items top_k : forall acc,
  reads_only (search_each items top_k acc).
Proof.
  induction items as [|ha items IH]; intros acc w; [reflexivity|].
  simpl. unfold mbind, M_bind. rewrite search_and_rerank_eta.
  destruct (fst (search_and_rerank ha top_k DEFAULT_TOP_N w));
    [apply IH|reflexivity].
Qed.

Lemma get_context_for_sub_q_reads_only attempt plan sub_q hypos :
  reads_only (get_context_for_sub_q attempt plan sub_q hypos).
Proof.
  intros w. unfold get_context_for_sub_q, mbind, M_bind, lift.
  destruct (iterate hypos); [apply search_each_reads_only|reflexivity].
Qed.

Lemma gather_reads_only {A} (tasks : list (M A)) :
  Forall reads_only tasks -> reads_only (gather tasks).
Proof.
  induction 1 as [|task tasks Htask _ IH]; intros w; [reflexivity|].
  simpl. unfold mbind, M_bind, mret, M_ret.
  rewrite (reads_only_eta task w Htask).
  destruct (fst (task w)); [|reflexivity].
  rewrite (reads_only_eta _ w IH). now destruct (fst (gather tasks w)).
Qed.

Lemma sub_question_calls_read_only attempt plan :
  Forall reads_only
    (map (fun item =>
            get_context_for_sub_q attempt plan (fst item) (snd item)) plan).
Proof.
  apply List.Forall_forall. intros task [item [<- _]]%in_map_iff.
  apply get_context_for_sub_q_reads_only.
Qed.

Lemma retrieval_attempts_reads_only attempts plan : forall acc,
  reads_only (retrieval_attempts attempts plan acc).
Proof.
  induction attempts as [|attempt attempts IH]; intros acc w; [reflexivity|].
  simpl. unfold mbind, M_bind.
  rewrite (reads_only_eta _ w
             (gather_reads_only _ (sub_question_calls_read_only attempt plan))).
  destruct (fst (gather _ w)) as [results|e]; [|reflexivity].
  destruct (bool_decide _); [apply IH|reflexivity].
Qed.

Lemma plan_and_research_run question w :
  plan_and_research question w
  = (Ok (planned question w),
     log_call (Call PlanningModel (prompt_plan (json_dumps question))) w).
Proof.
  unfold plan_and_research, planned.
  unfold mbind, M_bind, mret, M_ret, lift, try_except, generate_content.
  destruct (generate _ _ _) as [text|e]; [|reflexivity].
  now destruct (json_loads text) as [[| | | | |[|member members]]|e].
Qed.

Lemma synthesize_final_answer_run question chunks w :
  synthesize_final_answer question chunks w
  = match join_context chunks with
    | Raise e => (Raise e, w)
    | Ok ctx =>
        (Ok (synthesized question ctx w),
         log_call (Call SynthesisModel (prompt_final ctx question)) w)
    end.
Proof.
  unfold synthesize_final_answer, synthesized.
  unfold mbind, M_bind, mret, M_ret, lift, try_except, generate_content.
  destruct (join_context chunks) as [ctx|e]; [|reflexivity].
  now destruct (generate _ _ _).
Qed.

(** One run of the per-question pipeline, step by step. *)
Lemma run_single_question_pipeline_run question w :
  run_single_question_pipeline question w =
  match question_cache w !! question with
  | Some cached => (Ok cached, w)
  | None =>
      let w1 := log_call (Call PlanningModel
                            (prompt_plan (json_dumps question))) w in
      match fst (retrieval_attempts (seq 0 2) (planned question w) ∅ w1) with
      | Raise e => (Raise e, w1)
      | Ok chunks =>
          if bool_decide (chunks = ∅) then (Ok NO_CHUNKS_MESSAGE, w1)
          else
            match join_context (elements chunks) with
            | Raise e => (Raise e, w1)
            | Ok ctx =>
                let answer := synthesized question ctx w1 in
                (Ok answer,
                 set_question_cache (<[question := answer]> (question_cache w))
                   (log_call (Call SynthesisModel (prompt_final ctx question))
                      w1))
            end
      end
  end.
Proof.
  unfold run_single_question_pipeline.
  unfold mbind at 1. unfold M_bind, get_world.
  destruct (question_cache w !! question) as [cached|]; [reflexivity|].
  unfold mbind at 1. unfold M_bind. rewrite plan_and_research_run.
  cbv zeta. set (w1 := log_call _ w).
  unfold mbind at 1. unfold M_bind.
  rewrite (reads_only_eta _ w1 (retrieval_attempts_reads_only _ _ _)).
  destruct (fst (retrieval_attempts _ _ _ w1)) as [chunks|e]; cbn [fst];
    [|reflexivity].
  destruct (bool_decide (chunks = ∅)); [reflexivity|].
  unfold mbind, M_bind. rewrite synthesize_final_answer_run.
  now destruct (join_context (elements chunks)).
Qed.


(** What a run of the pipeline does to the cache, the index and the flag. *)
Lemma pipeline_state question w :
  let r := run_single_question_pipeline question w in
  index (snd r) = index w
  /\ policy_preloaded (snd r) = policy_preloaded w
  /\ (question_cache (snd r) = question_cache w
      \/ (question_cache w !! question = None
          /\ exists answer,
               fst r = Ok answer
               /\ question_cache (snd r)
                  = <[question := answer]> (question_cache w))).
Proof.
  cbv zeta. rewrite run_single_question_pipeline_run.
  destruct (question_cache w !! question) as [cached|] eqn:Hc; [auto|].
  cbv zeta.
  destruct (fst (retrieval_attempts _ _ _ _)) as [chunks|e]; [|auto].
  destruct (bool_decide (chunks = ∅)); [auto|].
  destruct (join_context (elements chunks)) as [ctx|e]; [|auto].
  simpl. repeat split. right. split; [reflexivity|]. now eexists.
Qed.

(** X6: a run of the pipeline leaves the index and the flag alone, and
    either leaves the cache alone or, on a miss, writes the answer it
    returns under its question and nothing else; an exception and the
    no-chunks message are not written. *)
Theorem pipeline_writes_only_its_answer question w :
  let r := run_single_question_pipeline question w in
  index (snd r) = index w
  /\ policy_preloaded (snd r) = policy_preloaded w
  /\ (question_cache (snd r) = question_cache w
      \/ (question_cache w !! question = None
          /\ exists answer,
               fst r = Ok answer
               /\ question_cache (snd r)
                  = <[question := answer]> (question_cache w)))
  /\ (is_ok (fst r) = false -> question_cache (snd r) = question_cache w)
  /\ (fst (retrieval_attempts (seq 0 2) (planned question w) ∅
             (log_call (Call PlanningModel
                          (prompt_plan (json_dumps question))) w))
      = Ok ∅ ->
      question_cache w !! question = None ->
      r = (Ok NO_CHUNKS_MESSAGE,
           log_call (Call PlanningModel
                       (prompt_plan (json_dumps question))) w)).
Proof.
  cbv zeta.
  destruct (pipeline_state question w) as (Hi & Hf & Hc).
  repeat split; try assumption.
  - rewrite run_single_question_pipeline_run.
    destruct (question_cache w !! question) as [cached|]; [reflexivity|].
    cbv zeta.
    destruct (fst (retrieval_attempts _ _ _ _)) as [chunks|e]; [|reflexivity].
    destruct (bool_decide (chunks = ∅)); [reflexivity|].
    destruct (join_context (elements chunks)) as [ctx|e];
      [discriminate|reflexivity].
  - intros Hempty Hmiss. rewrite run_single_question_pipeline_run, Hmiss.
    cbv zeta. rewrite Hempty. now rewrite bool_decide_eq_true_2.
Qed.

Lemma fallback_slot_state question w :
  index (snd (fallback_slot question w)) = index w
  /\ policy_preloaded (snd (fallback_slot question w)) = policy_preloaded w
  /\ forall q a, question_cache w !! q = Some a ->
       question_cache (snd (fallback_slot question w)) !! q = Some a.
Proof.
  destruct (pipeline_state question w) as (Hi & Hf & Hc).
  unfold fallback_slot.
  destruct (run_single_question_pipeline question w) as [[answer|e] w'];
    simpl in *; repeat split; try assumption; intros q a Hq.
  - destruct Hc as [->|[Hmiss (answer' & _ & ->)]]; [assumption|].
    rewrite lookup_insert_ne; [assumption|congruence].
  - destruct Hc as [->|[Hmiss (answer' & _ & ->)]]; [assumption|].
    rewrite lookup_insert_ne; [assumption|congruence].
Qed.

Lemma world_after_state questions : forall w,
  index (world_after questions w) = index w
  /\ policy_preloaded (world_after questions w) = policy_preloaded w
  /\ forall q a, question_cache w !! q = Some a ->
       question_cache (world_after questions w) !! q = Some a.
Proof.
  induction questions as [|question questions IH]; intros w; [auto|].
  simpl. destruct (IH (snd (fallback_slot question w))) as (Hi & Hf & Hc).
  destruct (fallback_slot_state question w) as (Hi' & Hf' & Hc').
  repeat split; [congruence|congruence|]. intros q a Hq. auto.
Qed.

(** X7: once an answer is in the cache, its question is answered with it
    for the rest of the loop, whatever questions come in between, and
    without any call. *)
Theorem cached_answer_persists question answer w others :
  question_cache w !! question = Some answer ->
  fallback_slot question (world_after others w)
  = (answer, world_after others w).
Proof.
  intros Hq. destruct (world_after_state others w) as (_ & _ & Hc).
  unfold fallback_slot. rewrite run_single_question_pipeline_run.
  now rewrite (Hc _ _ Hq).
Qed.

End PipelineFacts.

(** ** The endpoint *)

Section EndpointFacts.
Import PyStr CombinedAgent SynthesisAgent PlanningAgent RetrievalService Run.
Context {services : Services}.

Lemma texts_of_text chunks :
  forallb is_text chunks = true -> is_ok (texts_of chunks) = true.
Proof.
  induction chunks as [|[s|z] chunks IH]; simpl; [reflexivity| |discriminate].
  intros Hc. specialize (IH Hc). now destruct (texts_of chunks).
Qed.

Lemma join_context_text chunks :
  forallb is_text chunks = true -> is_ok (join_context chunks) = true.
Proof.
  intros Hc. apply texts_of_text in Hc. unfold join_context.
  now destruct (texts_of chunks).
Qed.

Lemma process_all_world questions chunks max_retries w :
  let w' := snd (process_all_questions_with_retry
                   questions chunks max_retries w) in
  index w' = index w /\ policy_preloaded w' = policy_preloaded w
  /\ question_cache w' = question_cache w.
Proof.
  cbv zeta. rewrite process_all_run.
  destruct (join_context chunks); [|auto]. cbv zeta.
  now destruct (_ || _).
Qed.

Lemma answer_questions_ok questions w :
  is_ok (fst (answer_questions questions w)) = true.
Proof.
  rewrite answer_questions_run. cbv zeta.
  destruct (process_all_questions_with_retry _ _ _ _) as [[answers|e] w2];
    [reflexivity|].
  now rewrite fallback_loop_run.
Qed.

Lemma answer_questions_world questions w :
  index (snd (answer_questions questions w)) = index w
  /\ policy_preloaded (snd (answer_questions questions w)) = policy_preloaded w.
Proof.
  rewrite answer_questions_run. cbv zeta.
  pose proof (process_all_world questions
                (elements (⋃ map (found (set_question_cache ∅ w)) questions))
                2 (set_question_cache ∅ w)) as Hp.
  cbv zeta in Hp.
  destruct (process_all_questions_with_retry _ _ _ _) as [[answers|e] w2];
    simpl in Hp; destruct Hp as (Hi & Hf & _).
  - now split.
  - rewrite fallback_loop_run. simpl.
    destruct (world_after_state questions w2) as (Hi' & Hf' & _).
    split; congruence.
Qed.

(** X8: what a request leaves behind.  When it returns answers, an index is
    attached and the flag is set; when it ends in the service error, the
    cache and the call history are as they were. *)
Theorem run_submission_leaves questions w :
  match run_submission questions w with
  | (Ok _, w') =>
      policy_preloaded w' = true
      /\ index w' = match index w with
                    | Some name => Some name
                    | None => Some INDEX_NAME
                    end
  | (Raise _, w') =>
      question_cache w' = question_cache w /\ calls w' = calls w
      /\ policy_preloaded w' = policy_preloaded w
  end.
Proof.
  rewrite run_submission_run.
  pose proof (answer_questions_world questions (with_index w)) as [Hi Hf].
  pose proof (answer_questions_ok questions (with_index w)) as Hok.
  destruct (index w) as [name|] eqn:Hidx.
  - destruct (answer_questions questions (with_index w)) as [[answers|e] w'];
      [|discriminate]. simpl in *. split; [assumption|].
    rewrite Hi. unfold with_index. now rewrite Hidx.
  - destruct (ingestion policy_path) as [e|e|]; [auto|auto|].
    destruct (answer_questions questions (with_index w)) as [[answers|e] w'];
      [|discriminate]. simpl in *. split; [assumption|].
    rewrite Hi. unfold with_index. now rewrite Hidx.
Qed.

(** X9: a request does not depend on what the cache and the flag held when
    it arrived. *)
Theorem run_submission_ignores_cache_and_flag questions w cache flag :
  fst (run_submission questions
         (set_question_cache cache (set_policy_preloaded flag w)))
  = fst (run_submission questions w)
  /\ (is_ok (fst (run_submission questions w)) = true ->
      snd (run_submission questions
             (set_question_cache cache (set_policy_preloaded flag w)))
      = snd (run_submission questions w)).
Proof.
  rewrite !run_submission_run. simpl index.
  destruct (index w) as [name|] eqn:Hidx.
  - rewrite !answer_questions_run. unfold with_index. simpl. rewrite Hidx.
    split; reflexivity.
  - destruct (ingestion policy_path) as [e|e|];
      [split; [reflexivity|discriminate]..|].
    rewrite !answer_questions_run. unfold with_index. simpl. rewrite Hidx.
    split; reflexivity.
Qed.

(** X10: when every chunk the searches return is a text, the batch path
    does not raise and the per-question loop is not entered: the answers
    are those of the batched synthesis. *)
Theorem text_pool_stays_on_batch_path questions w :
  (forall question chunk,
      question ∈ questions ->
      chunk ∈ found (set_question_cache ∅ w) question ->
      is_text chunk = true) ->
  let w1 := set_question_cache ∅ w in
  let pool := elements (⋃ (map (found w1) questions)) in
  is_ok (fst (process_all_questions_with_retry questions pool 2 w1)) = true
  /\ answer_questions questions w
     = process_all_questions_with_retry questions pool 2 w1.
Proof.
  intros Htext w1 pool.
  assert (Hpool : forallb is_text pool = true).
  { apply forallb_forall. intros chunk Hin.
    apply list_elem_of_In, elem_of_elements, elem_of_union_list in Hin
      as (X & HX & Hchunk).
    change (map ?f ?l) with (f <$> l) in HX.
    apply list_elem_of_fmap in HX as (question & -> & Hq).
    now apply (Htext question). }
  assert (Hok : is_ok (fst (process_all_questions_with_retry
                              questions pool 2 w1)) = true).
  { rewrite process_all_raises. now apply join_context_text. }
  split; [assumption|].
  rewrite answer_questions_run. cbv zeta. fold w1. fold pool.
  now destruct (process_all_questions_with_retry questions pool 2 w1)
    as [[answers|e] w2].
Qed.

Lemma union_list_empty (sets : list (gset payload)) :
  Forall (fun X => X = ∅) sets -> ⋃ sets = ∅.
Proof.
  induction 1 as [|X sets -> _ IH]; [reflexivity|].
  simpl. now rewrite IH, union_empty_l_L.
Qed.

(** X11: with an index attached, nothing found for any question (the
    searches raise or match nothing) and the completion service down, the
    request still answers: the sentinel for every question, by the batch
    path. *)
Theorem run_submission_survives_outage questions w :
  index w <> None ->
  (forall question,
      question ∈ questions ->
      found (set_question_cache ∅ (with_index w)) question = ∅) ->
  (forall history prompt,
      is_ok (generate history CombinedModel prompt) = false) ->
  fst (run_submission questions w)
  = Ok (replicate (length questions) NOT_FOUND).
Proof.
  intros Hidx Hfound Hdown. rewrite run_submission_run.
  destruct (index w) as [name|]; [|contradiction].
  rewrite answer_questions_run. cbv zeta.
  rewrite union_list_empty; cycle 1.
  { apply List.Forall_forall. intros X [question [<- Hq]]%in_map_iff.
    apply Hfound. now apply list_elem_of_In. }
  rewrite elements_empty.
  pose proof (process_all_outage questions [] 2
                (set_question_cache ∅ (with_index w)) EmptyString
                eq_refl Hdown) as Hout.
  destruct (process_all_questions_with_retry _ _ _ _) as [[answers|e] w2];
    [exact Hout|discriminate].
Qed.

(** The answering phase does not use the ingestion. *)

Lemma search_each_with_ingestion ing items top_k : forall acc w,
  @search_each (with_ingestion services ing) items top_k acc w
  = @search_each services items top_k acc w.
Proof.
  induction items as [|ha items IH]; intros acc w; [reflexivity|].
  simpl. unfold mbind, M_bind.
  change (@search_and_rerank (@retrieval_backend (with_ingestion services ing)))
    with (@search_and_rerank (@retrieval_backend services)).
  destruct (search_and_rerank ha top_k DEFAULT_TOP_N w) as [[context|e] w'];
    [apply IH|reflexivity].
Qed.

Lemma gather_ext {A} (tasks tasks' : list (M A)) :
  Forall2 (fun t t' => forall w, t w = t' w) tasks tasks' ->
  forall w, gather tasks w = gather tasks' w.
Proof.
  induction 1 as [|t t' tasks tasks' Ht _ IH]; intros w; [reflexivity|].
  simpl. unfold mbind, M_bind, mret, M_ret. rewrite Ht.
  destruct (t' w) as [[a|e] w']; [|reflexivity]. now rewrite IH.
Qed.

Lemma retrieval_attempts_with_ingestion ing attempts plan : forall acc w,
  @retrieval_attempts (with_ingestion services ing) attempts plan acc w
  = @retrieval_attempts services attempts plan acc w.
Proof.
  induction attempts as [|attempt attempts IH]; intros acc w; [reflexivity|].
  simpl. unfold mbind, M_bind.
  rewrite (gather_ext _
             (map (fun item =>
                     @get_context_for_sub_q services attempt plan
                       (fst item) (snd item)) plan)).
  - destruct (gather _ w) as [[results|e] w']; [|reflexivity].
    destruct (bool_decide _); [apply IH|reflexivity].
  - generalize plan at 2 4. intros items.
    induction items as [|item items IHp]; simpl; constructor; [|apply IHp].
    intros w'. unfold get_context_for_sub_q, mbind, M_bind, lift.
    destruct (iterate (snd item)); [|reflexivity].
    apply search_each_with_ingestion.
Qed.

Lemma pipeline_with_ingestion ing question w :
  @run_single_question_pipeline (with_ingestion services ing) question w
  = @run_single_question_pipeline services question w.
Proof.
  rewrite (@run_single_question_pipeline_run (with_ingestion services ing)).
  rewrite (@run_single_question_pipeline_run services).
  destruct (question_cache w !! question); [reflexivity|]. cbv zeta.
  now rewrite retrieval_attempts_with_ingestion.
Qed.

Lemma fallback_loop_with_ingestion ing questions : forall answers w,
  @fallback_loop (with_ingestion services ing) questions answers w
  = @fallback_loop services questions answers w.
Proof.
  induction questions as [|question questions IH]; intros answers w;
    [reflexivity|].
  simpl. unfold mbind, M_bind, try_except. rewrite pipeline_with_ingestion.
  destruct (run_single_question_pipeline question w) as [[answer|e] w'];
    apply IH.
Qed.

Lemma gather_context_with_ingestion ing questions : forall acc w,
  @gather_context (with_ingestion services ing) questions acc w
  = @gather_context services questions acc w.
Proof.
  induction questions as [|question questions IH]; intros acc w;
    [reflexivity|].
  simpl. unfold mbind, M_bind, try_except.
  change (@search_and_rerank (@retrieval_backend (with_ingestion services ing)))
    with (@search_and_rerank (@retrieval_backend services)).
  destruct (search_and_rerank (JString question) 30 DEFAULT_TOP_N w)
    as [[context|e] w']; apply IH.
Qed.

Lemma answer_questions_with_ingestion ing questions w :
  @answer_questions (with_ingestion services ing) questions w
  = @answer_questions services questions w.
Proof.
  unfold answer_questions, get_comprehensive_context.
  unfold mbind, M_bind, try_except, modify_world, mret, M_ret.
  rewrite gather_context_with_ingestion.
  destruct (gather_context questions ∅ _) as [[pool|e] w1].
  - change (@completion_service (with_ingestion services ing))
      with (@completion_service services).
    destruct (process_all_questions_with_retry _ _ _ _) as [[answers|e] w2];
      [reflexivity|apply fallback_loop_with_ingestion].
  - apply fallback_loop_with_ingestion.
Qed.

Lemma run_submission_attached ing questions w :
  index w <> None ->
  @run_submission (with_ingestion services ing) questions w
  = @run_submission services questions w.
Proof.
  intros Hidx.
  rewrite (@run_submission_run (with_ingestion services ing)).
  rewrite (@run_submission_run services).
  destruct (index w) as [name|]; [|contradiction].
  apply answer_questions_with_ingestion.
Qed.

(** X12: with an index attached, a request does not consult the ingestion
    at all: it is the same whatever the ingestion would do. *)
Theorem attached_index_skips_ingestion questions w ingestion_backend :
  index w <> None ->
  @run_submission (with_ingestion services ingestion_backend) questions w
  = @run_submission services questions w.
Proof.
  apply run_submission_attached.
Qed.

(** X13: with no index attached, an ingestion that fails before it attaches
    the index leaves the state as it was, so that the next request ingests
    again; one that fails after it attached the index (the upsert) ends the
    request in the service error too, but leaves the index attached: every
    later request answers without ingesting. *)
Theorem failed_ingestion_aftermath questions w :
  index w = None ->
  (forall e, ingestion policy_path = FailsBeforeAttach e ->
     is_ok (fst (run_submission questions w)) = false
     /\ snd (run_submission questions w) = w)
  /\ (forall e, ingestion policy_path = FailsAfterAttach e ->
       is_ok (fst (run_submission questions w)) = false
       /\ index (snd (run_submission questions w)) = Some INDEX_NAME
       /\ forall later ingestion_backend,
            @run_submission (with_ingestion services ingestion_backend) later
              (snd (run_submission questions w))
            = @run_submission services later (snd (run_submission questions w))
            /\ is_ok (fst (run_submission later
                             (snd (run_submission questions w)))) = true).
Proof.
  intros Hidx. rewrite run_submission_run, Hidx. split; intros e ->.
  - split; reflexivity.
  - split; [reflexivity|]. split; [reflexivity|]. intros later ingestion'.
    simpl snd. split; [now apply run_submission_attached|].
    rewrite run_submission_run. simpl index. apply answer_questions_ok.
Qed.

End EndpointFacts.

(** ** Retrieval *)

Section SearchMore.
Import RetrievalService.
Context `{RetrievalBackend}.

Lemma retrieved_texts_spec matches : forall texts,
  retrieved_texts matches = Ok texts ->
  Forall2 (fun m text => match_metadata m !! "text" = Some text) matches texts.
Proof.
  induction matches as [|m matches IH]; simpl; intros texts.
  - intros [= <-]. constructor.
  - destruct (match_metadata m !! "text") as [chunk|] eqn:Hm; [|discriminate].
    destruct (retrieved_texts matches) as [chunks|e]; [|discriminate].
    intros [= <-]. constructor; [assumption|]. now apply IH.
Qed.

Lemma retrieved_texts_missing matches m :
  m ∈ matches -> match_metadata m !! "text" = None ->
  retrieved_texts matches = Raise (KeyError "text").
Proof.
  induction 1 as [m matches|m m' matches Hin IH]; simpl; intros Hm.
  - now rewrite Hm.
  - destruct (match_metadata m' !! "text"); [|reflexivity].
    now rewrite (IH Hm).
Qed.

Lemma slice_to_subset {A} (n : Z) (l : list A) x :
  x ∈ slice_to n l -> x ∈ l.
Proof.
  unfold slice_to. destruct (0 <=? n)%Z; intros Hx.
  - rewrite <- (take_drop (Z.to_nat n) l). apply elem_of_app. now left.
  - rewrite <- (take_drop (length l - Z.to_nat (- n)) l).
    apply elem_of_app. now left.
Qed.

Lemma slice_to_length {A} (n : Z) (l : list A) :
  (0 <= n)%Z -> (Z.of_nat (length (slice_to n l)) <= n)%Z.
Proof.
  intros Hn. unfold slice_to. rewrite (proj2 (Z.leb_le 0 n) Hn).
  rewrite length_take. lia.
Qed.

Lemma zip_snd_elem {A B} (l : list A) (k : list B) p :
  p ∈ zip l k -> snd p ∈ k.
Proof.
  revert k. induction l as [|a l IH]; intros [|b k] Hp; simpl in *;
    try now inversion Hp.
  apply elem_of_cons in Hp as [->|Hp]; [now left|].
  right. now apply IH.
Qed.

(** X14: a search that returns hands back no more than [top_n_rerank] chunks
    (when that is not negative), and each of them is the text stored with
    one of the matches of the vector query: reranking neither invents nor
    alters a chunk. *)
Theorem search_returns_stored_texts query top_k top_n w chunks :
  fst (search_and_rerank query top_k top_n w) = Ok chunks ->
  ((0 <= top_n)%Z -> (Z.of_nat (length chunks) <= top_n)%Z)
  /\ forall chunk, chunk ∈ chunks ->
       exists v matches m,
         encode query = Ok v /\ index_query v top_k = Ok matches
         /\ m ∈ matches /\ match_metadata m !! "text" = Some chunk.
Proof.
  rewrite search_and_rerank_run. simpl fst.
  destruct (index w) as [name|]; [|discriminate].
  destruct (encode query) as [v|e] eqn:Hv; [|discriminate].
  destruct (index_query v top_k) as [[|m ms]|e] eqn:Hq; [| |discriminate].
  { intros [= <-]. split; [simpl; lia|]. intros chunk Hc. inversion Hc. }
  unfold rerank.
  destruct (retrieved_texts (m :: ms)) as [texts|e] eqn:Ht; [|discriminate].
  destruct (predict _) as [scores|e]; [|discriminate].
  intros [= <-]. split.
  - intros Hn. rewrite length_map. now apply slice_to_length.
  - intros chunk Hc. change (map ?f ?l) with (f <$> l) in Hc.
    apply list_elem_of_fmap in Hc as (p & -> & Hp).
    apply slice_to_subset in Hp.
    rewrite (sort_desc_perm (zip scores texts)) in Hp.
    apply zip_snd_elem in Hp.
    apply retrieved_texts_spec in Ht.
    apply list_elem_of_lookup in Hp as [i Hi].
    destruct (Forall2_lookup_r _ _ _ _ _ Ht Hi) as (m' & Hm' & Htext).
    exists v, (m :: ms), m'. repeat split; try assumption.
    apply list_elem_of_lookup. now exists i.
Qed.

(** X15: a match without a text stored with it makes the whole search raise
    [KeyError], wherever the match ranks and however many chunks were asked
    for. *)
Theorem search_needs_every_text query top_k top_n w v matches m :
  index w <> None ->
  encode query = Ok v ->
  index_query v top_k = Ok matches ->
  m ∈ matches ->
  match_metadata m !! "text" = None ->
  search_and_rerank query top_k top_n w = (Raise (KeyError "text"), w).
Proof.
  intros Hidx Hv Hq Hin Hm. rewrite search_and_rerank_run, Hv, Hq.
  destruct (index w); [|contradiction].
  destruct matches as [|m0 ms]; [inversion Hin|].
  unfold rerank. now rewrite (retrieved_texts_missing _ _ Hin Hm).
Qed.

End SearchMore.

Section CoroutineMore.
Import PlanningAgent RetrievalService Run Coroutines.

Lemma search_each_co_asks items k : forall acc,
  asks_for k (search_each_co items k acc).
Proof.
  induction items as [|ha items IH]; intros acc; simpl; constructor.
  intros [context|e]; [apply IH|constructor].
Qed.

Lemma gather_context_co_asks questions : forall acc,
  asks_for 30 (gather_context_co questions acc).
Proof.
  induction questions as [|q questions IH]; intros acc; simpl; constructor.
  intros [context|e]; apply IH.
Qed.

Lemma run_alone_asks {A} search k (c : coroutine A) :
  asks_for k c -> Forall (fun ev => event_top_k ev = k) (fst (run_alone search c)).
Proof.
  induction 1 as [a|e|query resume _ IH]; simpl; try constructor.
  specialize (IH (search query k)).
  destruct (run_alone search (resume (search query k))) as [trace r].
  simpl in *. repeat constructor. exact IH.
Qed.

Lemma first_issue_asks {A} k (c : coroutine A) :
  asks_for k c -> Forall (fun ev => event_top_k ev = k) (first_issue c).
Proof. destruct 1; simpl; repeat constructor. Qed.

Lemma resume_task_asks {A} search k (c : coroutine A) :
  asks_for k c ->
  Forall (fun ev => event_top_k ev = k) (fst (resume_task search c))
  /\ asks_for k (snd (resume_task search c)).
Proof.
  destruct 1 as [a|e|query resume Hr]; simpl.
  - split; constructor.
  - split; constructor.
  - split; [|apply Hr]. constructor; [reflexivity|].
    apply first_issue_asks, Hr.
Qed.

Lemma event_loop_asks {A} search k schedule :
  forall tasks : list (coroutine A),
    Forall (asks_for k) tasks ->
    Forall (fun ev => event_top_k ev = k) (fst (event_loop search schedule tasks)).
Proof.
  induction schedule as [|j schedule IH]; intros tasks Htasks; simpl;
    [constructor|].
  destruct (tasks !! j) as [c|] eqn:Hj; [|now apply IH].
  assert (Hc : asks_for k c).
  { rewrite List.Forall_forall in Htasks. apply Htasks.
    apply list_elem_of_In, list_elem_of_lookup. now exists j. }
  destruct (resume_task_asks search k c Hc) as [Hev Hc'].
  destruct (resume_task search c) as [events c']. simpl in *.
  specialize (IH (<[j := c']> tasks)).
  destruct (event_loop search schedule (<[j := c']> tasks)) as [trace final].
  simpl in *. apply Forall_app. split; [assumption|].
  apply IH. now apply Forall_insert.
Qed.

Lemma sub_question_tasks_ask attempt plan :
  Forall (asks_for (if (0 <? attempt)%nat then 60
                    else if (1 <? length plan)%nat then 40 else 20)%Z)
         (sub_question_tasks attempt plan).
Proof.
  unfold sub_question_tasks. apply List.Forall_forall.
  intros c [item [<- _]]%in_map_iff. unfold get_context_for_sub_q_co.
  destruct (iterate (snd item)); [apply search_each_co_asks|constructor].
Qed.

(** X16: the retrieval breadth.  Every search of the gathering step of the
    batch path asks for 30 candidates; every search of the per-question
    pipeline asks for 20 on the first attempt when the plan has a single
    sub-question, for 40 on the first attempt when it has several, and for
    60 on any later attempt, in whatever order the searches finish. *)
Theorem retrieval_breadth search :
  (forall questions acc,
      Forall (fun ev => event_top_k ev = 30%Z)
             (fst (run_alone search (gather_context_co questions acc))))
  /\ (forall attempt plan schedule,
        Forall (fun ev =>
                  event_top_k ev
                  = (if (0 <? attempt)%nat then 60
                     else if (1 <? length plan)%nat then 40 else 20)%Z)
               (gather_trace search schedule
                  (sub_question_tasks attempt plan))).
Proof.
  split.
  - intros questions acc. apply run_alone_asks, gather_context_co_asks.
  - intros attempt plan schedule. unfold gather_trace.
    pose proof (sub_question_tasks_ask attempt plan) as Hasks.
    apply Forall_app. split; [|now apply event_loop_asks].
    apply List.Forall_forall. intros ev [c [Hc Hev]]%in_flat_map.
    rewrite List.Forall_forall in Hasks.
    pose proof (first_issue_asks _ c (Hasks c Hc)) as Hf.
    rewrite List.Forall_forall in Hf. now apply Hf.
Qed.

Lemma event_loop_final_cons {A} search j schedule (tasks : list (coroutine A)) :
  snd (event_loop search (j :: schedule) tasks)
  = match tasks !! j with
    | Some c =>
        snd (event_loop search schedule
               (<[j := snd (resume_task search c)]> tasks))
    | None => snd (event_loop search schedule tasks)
    end.
Proof.
  simpl. destruct (tasks !! j) as [c|]; [|reflexivity].
  destruct (resume_task search c) as [events c']. cbn [snd].
  destruct (event_loop search schedule (<[j := c']> tasks)). reflexivity.
Qed.

Lemma searches_outcome {A} search (c : coroutine A) :
  forall tasks j,
    tasks !! j = Some c ->
    snd (event_loop search (replicate (searches search c) j) tasks)
    = <[j := finished (snd (run_alone search c))]> tasks.
Proof.
  induction c as [a|e|query top_k resume IH]; intros tasks j Hj.
  - symmetry. now apply list_insert_id.
  - symmetry. now apply list_insert_id.
  - change (searches search (AwaitSearch query top_k resume))
      with (S (searches search (resume (search query top_k)))).
    change (replicate (S ?n) j) with (j :: replicate n j).
    rewrite event_loop_final_cons, Hj.
    change (snd (resume_task search (AwaitSearch query top_k resume)))
      with (resume (search query top_k)).
    rewrite IH
      by (apply list_lookup_insert_eq; eapply lookup_lt_Some, Hj).
    rewrite list_insert_insert_eq. simpl.
    now destruct (run_alone search (resume (search query top_k))).
Qed.

Lemma event_loop_app {A} search s1 s2 : forall tasks : list (coroutine A),
  snd (event_loop search (s1 ++ s2) tasks)
  = snd (event_loop search s2 (snd (event_loop search s1 tasks))).
Proof.
  induction s1 as [|j s1 IH]; intros tasks; [reflexivity|].
  change ((j :: s1) ++ s2) with (j :: (s1 ++ s2)).
  rewrite !event_loop_final_cons.
  destruct (tasks !! j) as [c|]; apply IH.
Qed.

Lemma one_after_another_settles {A} search (rest : list (coroutine A)) :
  forall settled,
    snd (event_loop search
           (concat (imap (fun j c => replicate (searches search c)
                                       (length settled + j)) rest))
           (settled ++ rest))
    = settled ++ map (fun c => finished (snd (run_alone search c))) rest.
Proof.
  induction rest as [|c rest IH]; intros settled; [reflexivity|].
  simpl. rewrite event_loop_app, Nat.add_0_r.
  rewrite (searches_outcome search c)
    by (rewrite lookup_app_r, Nat.sub_diag by lia; reflexivity).
  rewrite insert_app_r_alt, Nat.sub_diag by lia. simpl.
  specialize (IH (settled ++ [finished (snd (run_alone search c))])).
  rewrite <- !app_assoc in IH. simpl in IH. rewrite <- IH.
  f_equal. f_equal. f_equal. apply imap_ext. intros j c' _. simpl.
  f_equal. rewrite length_app. simpl. lia.
Qed.

(** X17: the join can always be completed: when the searches finish one
    task after another, no task is left waiting, and every task ends with
    the result it has when run on its own. *)
Theorem gather_can_settle {A} search (tasks : list (coroutine A)) :
  gather_final search (one_task_after_another search tasks) tasks
  = map (fun c => finished (snd (run_alone search c))) tasks
  /\ forallb (fun c => negb (waiting c))
       (gather_final search (one_task_after_another search tasks) tasks)
     = true.
Proof.
  assert (Hfinal : gather_final search (one_task_after_another search tasks) tasks
                   = map (fun c => finished (snd (run_alone search c))) tasks).
  { exact (one_after_another_settles search tasks []). }
  split; [exact Hfinal|]. rewrite Hfinal.
  apply forallb_forall. intros c [c0 [<- _]]%in_map_iff.
  now destruct (snd (run_alone search c0)).
Qed.

End CoroutineMore.

(** ** Ingestion *)

Section IngestionFacts.
Import PyStr RetrievalService.

Lemma str_inj n m : str n = str m -> n = m.
Proof.
  intros Heq. pose proof (int_str n) as Hn. rewrite Heq, int_str in Hn.
  now injection Hn.
Qed.

Lemma vectors_to_upsert_lookup {E} text_chunks (chunk_embeddings : list E) i :
  vectors_to_upsert text_chunks chunk_embeddings !! i
  = match text_chunks !! i, chunk_embeddings !! i with
    | Some chunk, Some embedding =>
        Some (Vector (str i) embedding {[ "text" := Text chunk ]})
    | _, _ => None
    end.
Proof.
  unfold vectors_to_upsert. rewrite list_lookup_imap.
  rewrite lookup_zip_with.
  destruct (text_chunks !! i) as [chunk|]; [|reflexivity].
  now destruct (chunk_embeddings !! i) as [embedding|].
Qed.

Lemma vectors_to_upsert_elem {E} text_chunks (chunk_embeddings : list E) v :
  v ∈ vectors_to_upsert text_chunks chunk_embeddings ->
  exists i chunk,
    text_chunks !! i = Some chunk
    /\ vector_id v = str i
    /\ vector_metadata v = {[ "text" := Text chunk ]}.
Proof.
  intros [i Hi]%list_elem_of_lookup. rewrite vectors_to_upsert_lookup in Hi.
  destruct (text_chunks !! i) as [chunk|] eqn:Hc; [|discriminate].
  destruct (chunk_embeddings !! i) as [embedding|]; [|discriminate].
  injection Hi as <-. now exists i, chunk.
Qed.

(** X18: the vectors prepared for the upsert.  There is one for each chunk
    that has an embedding, in the order of the chunks; the vector at
    position [i] has the id [str(i)], its embedding and, as its only
    metadata, the chunk under ["text"]; and no two vectors share an id. *)
Theorem upsert_vectors_are_numbered {E} text_chunks (chunk_embeddings : list E) :
  length (vectors_to_upsert text_chunks chunk_embeddings)
  = Nat.min (length text_chunks) (length chunk_embeddings)
  /\ (forall i chunk embedding,
        text_chunks !! i = Some chunk ->
        chunk_embeddings !! i = Some embedding ->
        vectors_to_upsert text_chunks chunk_embeddings !! i
        = Some (Vector (str i) embedding {[ "text" := Text chunk ]}))
  /\ NoDup (map vector_id (vectors_to_upsert text_chunks chunk_embeddings)).
Proof.
  split; [|split].
  - unfold vectors_to_upsert. now rewrite length_imap, length_zip_with.
  - intros i chunk embedding Hc He.
    now rewrite vectors_to_upsert_lookup, Hc, He.
  - change (map ?f ?l) with (f <$> l). apply NoDup_alt. intros i j id Hi Hj.
    rewrite list_lookup_fmap, vectors_to_upsert_lookup in Hi, Hj.
    destruct (text_chunks !! i), (chunk_embeddings !! i); try discriminate.
    destruct (text_chunks !! j), (chunk_embeddings !! j); try discriminate.
    simpl in Hi, Hj. apply str_inj. congruence.
Qed.

Lemma retrieved_texts_stored {E} (vectors : list (upsert_vector E))
  text_chunks chunk_embeddings matches :
  vectors = vectors_to_upsert text_chunks chunk_embeddings ->
  Forall (stored_as vectors) matches ->
  exists chunks,
    retrieved_texts matches = Ok (map Text chunks)
    /\ Forall (fun chunk => chunk ∈ text_chunks) chunks.
Proof.
  intros ->. induction 1 as [|m matches (v & Hv & _ & Hm) _ IH].
  - now exists [].
  - destruct IH as (chunks & Hr & Hall).
    apply vectors_to_upsert_elem in Hv as (i & chunk & Hi & _ & Hmeta).
    exists (chunk :: chunks). simpl. rewrite Hm, Hmeta, lookup_singleton_eq, Hr.
    split; [reflexivity|]. constructor; [|assumption].
    apply list_elem_of_lookup. now exists i.
Qed.

Lemma retrieved_texts_length matches : forall texts,
  retrieved_texts matches = Ok texts -> length texts = length matches.
Proof.
  induction matches as [|m matches IH]; intros texts; simpl.
  - now intros [= <-].
  - destruct (match_metadata m !! "text"); [|discriminate].
    destruct (retrieved_texts matches) as [rest|e]; [|discriminate].
    intros [= <-]. simpl. now rewrite (IH rest).
Qed.

Context `{RetrievalBackend}.

(** X19: over an index that holds the vectors of an ingestion, a search
    whose embedding, vector query and scoring succeed does not raise, and
    every chunk it returns is one of the ingested text chunks. *)
Theorem search_over_ingested_vectors {E} text_chunks (chunk_embeddings : list E)
  query top_k top_n w v matches :
  index w <> None ->
  encode query = Ok v ->
  index_query v top_k = Ok matches ->
  Forall (stored_as (vectors_to_upsert text_chunks chunk_embeddings)) matches ->
  (forall pairs, length pairs = length matches -> is_ok (predict pairs) = true) ->
  exists chunks,
    search_and_rerank query top_k top_n w = (Ok (map Text chunks), w)
    /\ Forall (fun chunk => chunk ∈ text_chunks) chunks.
Proof.
  intros Hidx Hv Hq Hstored Hpredict.
  rewrite search_and_rerank_run, Hv, Hq.
  destruct (index w); [|contradiction].
  destruct matches as [|m ms]; [now exists []|].
  destruct (retrieved_texts_stored _ text_chunks chunk_embeddings (m :: ms)
              eq_refl Hstored) as (chunks & Hr & Hall).
  unfold rerank. rewrite Hr.
  specialize (Hpredict (map (fun chunk => (query, chunk)) (map Text chunks))).
  destruct (predict _) as [scores|e].
  - set (kept := slice_to top_n (sort_desc (zip scores (map Text chunks)))).
    assert (Hkept : Forall (fun c => exists chunk,
                              c = Text chunk /\ chunk ∈ text_chunks)
                      (map snd kept)).
    { apply List.Forall_forall. intros c Hc. apply list_elem_of_In in Hc.
      change (map ?f ?l) with (f <$> l) in Hc.
      apply list_elem_of_fmap in Hc as (p & -> & Hp).
      apply slice_to_subset in Hp.
      rewrite (sort_desc_perm (zip scores (map Text chunks))) in Hp.
      apply zip_snd_elem in Hp.
      change (map ?f ?l) with (f <$> l) in Hp.
      apply list_elem_of_fmap in Hp as (chunk & -> & Hchunk).
      exists chunk. split; [reflexivity|].
      rewrite List.Forall_forall in Hall. apply Hall.
      now apply list_elem_of_In. }
    clearbody kept. revert Hkept. generalize (map snd kept). intros l.
    induction 1 as [|c l (chunk & -> & Hchunk) _ (chunks' & Heq & Hall')].
    + now exists [].
    + exists (chunk :: chunks'). injection Heq as ->.
      split; [reflexivity|now constructor].
  - exfalso. enough (false = true) by discriminate. apply Hpredict.
    rewrite length_map. now apply retrieved_texts_length.
Qed.

End IngestionFacts.

(** ** Scenarios *)

Lemma numbered_lines_round_trip_example :
  forallb no_newline ["yes"; " no "] = true
  /\ CombinedAgent._parse_numbered_answers_map
       (PyStr.join (String PyStr.newline EmptyString)
          (CombinedAgent.numbered_questions ["yes"; " no "])) !! 2
     = Some "no".
Proof.
  split; [reflexivity|].
  apply (proj2 (numbered_lines_round_trip ["yes"; " no "] 2 "no" eq_refl)).
  exists 1, " no ". repeat split. discriminate.
Defined.

Lemma well_formed_response_example :
  fst (@CombinedAgent.process_all_questions_with_retry
         (scripted [Ok " 1. yes
2.  no
"]) ["q1"; "q2"] [] 2 fresh_world)
  = Ok ["yes"; "no"].
Proof.
  exact (f_equal fst
           (@well_formed_response_is_returned
              (scripted [Ok " 1. yes
2.  no
"]) ["q1"; "q2"] [] 2 fresh_world EmptyString " 1. yes
2.  no
" ["yes"; " no"] eq_refl eq_refl eq_refl eq_refl eq_refl)).
Defined.

Lemma batch_outage_example :
  fst (@CombinedAgent.process_all_questions_with_retry
         (scripted []) ["q1"; "q2"] [] 2 fresh_world)
  = Ok [CombinedAgent.NOT_FOUND; CombinedAgent.NOT_FOUND].
Proof.
  apply (@batch_survives_outage (scripted []) ["q1"; "q2"] [] 2 fresh_world
           EmptyString eq_refl).
  intros history prompt. simpl. now destruct (length history).
Defined.

Lemma cached_answer_example :
  @Run.fallback_slot (sample_services [] sample_backend) "q"
    (@Run.world_after (sample_services [] sample_backend) ["other"]
       cached_world)
  = ("a", @Run.world_after (sample_services [] sample_backend) ["other"]
            cached_world).
Proof.
  apply (@cached_answer_persists (sample_services [] sample_backend)).
  vm_compute. reflexivity.
Defined.

Lemma text_pool_example :
  is_ok (fst (@Run.answer_questions (sample_services [Ok "1. yes"] sample_backend)
                ["q"] attached_world)) = true.
Proof.
  destruct (@text_pool_stays_on_batch_path
              (sample_services [Ok "1. yes"] sample_backend)
              ["q"] attached_world) as [Hok Heq].
  - intros question chunk _ Hchunk.
    assert (Hfound : @Run.found (sample_services [Ok "1. yes"] sample_backend)
                       (set_question_cache ∅ attached_world) question
                     = {[ Text "beta"; Text "alpha"; Text "gamma" ]}).
    { unfold Run.found. rewrite search_and_rerank_run. vm_compute. reflexivity. }
    rewrite Hfound in Hchunk.
    apply elem_of_union in Hchunk as [Hchunk| ->%elem_of_singleton];
      [|reflexivity].
    apply elem_of_union in Hchunk as [->%elem_of_singleton| ->%elem_of_singleton];
      reflexivity.
  - rewrite Heq. exact Hok.
Defined.

Lemma request_outage_example :
  fst (@Run.run_submission (sample_services [] empty_backend) ["q1"; "q2"]
         attached_world)
  = Ok [CombinedAgent.NOT_FOUND; CombinedAgent.NOT_FOUND].
Proof.
  apply (@run_submission_survives_outage (sample_services [] empty_backend)).
  - discriminate.
  - intros question _. reflexivity.
  - intros history prompt. simpl. now destruct (length history).
Defined.

Lemma attached_index_example :
  @Run.run_submission
    (with_ingestion (sample_services [] sample_backend) failing_upsert)
    ["q"] attached_world
  = @Run.run_submission (sample_services [] sample_backend) ["q"]
      attached_world.
Proof.
  apply (@attached_index_skips_ingestion (sample_services [] sample_backend)).
  discriminate.
Defined.

Lemma failed_upsert_example :
  is_ok (fst (@Run.run_submission
                (with_ingestion (sample_services [] sample_backend)
                   failing_upsert) ["q"] fresh_world)) = false
  /\ index (snd (@Run.run_submission
                   (with_ingestion (sample_services [] sample_backend)
                      failing_upsert) ["q"] fresh_world))
     = Some RetrievalService.INDEX_NAME.
Proof.
  destruct (@failed_ingestion_aftermath
              (with_ingestion (sample_services [] sample_backend)
                 failing_upsert) ["q"] fresh_world eq_refl) as [_ Hafter].
  destruct (Hafter (ServiceError "upsert") eq_refl) as (Hfail & Hidx & _).
  split; assumption.
Defined.

Lemma stored_texts_example :
  fst (@RetrievalService.search_and_rerank sample_backend (JString "q") 20 2
         attached_world)
  = Ok [Text "beta"; Text "alpha"]
  /\ (Z.of_nat (length [Text "beta"; Text "alpha"]) <= 2)%Z.
Proof.
  assert (Hrun : fst (@RetrievalService.search_and_rerank sample_backend
                        (JString "q") 20 2 attached_world)
                 = Ok [Text "beta"; Text "alpha"]).
  { vm_compute. reflexivity. }
  split; [exact Hrun|].
  apply (proj1 (@search_returns_stored_texts sample_backend (JString "q") 20 2
                  attached_world _ Hrun)).
  lia.
Defined.

Lemma missing_text_example :
  @RetrievalService.search_and_rerank untexted_backend (JString "q") 20 5
    attached_world
  = (Raise (KeyError "text"), attached_world).
Proof.
  apply (@search_needs_every_text untexted_backend (JString "q") 20 5
           attached_world tt
           [ RetrievalService.Match "0" {[ "text" := Text "alpha" ]};
             RetrievalService.Match "1" {[ "page" := Number 3 ]} ]
           (RetrievalService.Match "1" {[ "page" := Number 3 ]})).
  - discriminate.
  - reflexivity.
  - reflexivity.
  - right. left.
  - vm_compute. reflexivity.
Defined.

Lemma ingested_search_example :
  exists chunks,
    @RetrievalService.search_and_rerank sample_backend (JString "q") 20 2
      attached_world
    = (Ok (map Text chunks), attached_world)
    /\ Forall (fun chunk => chunk ∈ ["alpha"; "beta"; "gamma"]) chunks.
Proof.
  apply (@search_over_ingested_vectors sample_backend unit
           ["alpha"; "beta"; "gamma"] [tt; tt; tt] (JString "q") 20 2
           attached_world tt sample_matches).
  - discriminate.
  - reflexivity.
  - reflexivity.
  - repeat constructor.
    + exists (Vector "0" tt {[ "text" := Text "alpha" ]}).
      split; [left|split; reflexivity].
    + exists (Vector "1" tt {[ "text" := Text "beta" ]}).
      split; [right; left|split; reflexivity].
    + exists (Vector "2" tt {[ "text" := Text "gamma" ]}).
      split; [right; right; left|split; reflexivity].
  - intros pairs _. reflexivity.
Defined.
